(** * The SARIF result panel: index store, result table store and table keys

    A shallow embedding of the panel stores of the SARIF viewer
    ([src/panel/indexStore.ts], the result table store and the key handler of
    the table component) and the properties of the specification proved or
    refuted against it.

    Conventions of the embedding.
    - A JS string is the [string] of the bytes of its UTF-8 encoding (a
      string with an unpaired surrogate has none).  Equality, concatenation
      and [includes] on JS strings are those on the bytes.  The white space
      of [/\s/] is the list [Js.white_space].  [toLowerCase] follows the
      Unicode tables of the engine and is a parameter ([Js.Engine]).
    - A JS number is known by the text that [String(n)] gives for it, which
      is all that the panel reads of a number; the two indices of the
      identity of a result are integers, of type [Z].
    - A JS object used as a dictionary ([Record<string, V>]) is a
      [gmap string V] of its own properties.  Where the sources read such an
      object under a key that may be any string ([Columns[key]],
      [properties[key]]), the members that every object inherits from
      [Object.prototype] are read as well ([Js.inherited]).
    - A MobX observable is the plain value it holds.  [intercept] and
      [observe] run inside the mutation of the observed value, and the
      [autorun] on the selection box runs when the box changes: they are
      functions that the mutators run.  The [when] of [defaultSelection]
      waits for the rows of a table store, which are not among the sources:
      the store is the one that the constructor builds without
      [defaultSelection].
    - [vscode.postMessage] appends to the list [posted] of the store.
    - [isActive()] is asked of the browser; its answer during a call is the
      argument [active] of the call.
    - An [async] function returns an [Outcome]: a [throw] inside it is a
      rejected promise. *)

From Stdlib Require Import ZArith DecimalString Ascii String.
From Stdlib Require Import DecimalZ.
From stdpp Require Import gmap strings list fin_maps.

Open Scope string_scope.
Open Scope list_scope.

(* ===================================================================== *)
(** * 1. JavaScript strings and values *)
(* ===================================================================== *)

Module Js.

(** The string of the bytes [codes]. *)
Definition bytes (codes : list nat) : string :=
  fold_right (fun n s => String (ascii_of_nat n) s) EmptyString codes.

(** ['—'], U+2014, as the three bytes of its UTF-8 encoding. *)
Definition emdash : string :=
  String (ascii_of_nat 226) (String (ascii_of_nat 128) (String (ascii_of_nat 148) EmptyString)).

Definition dquote : string := String (ascii_of_nat 34) EmptyString.
Definition backslash : string := String (ascii_of_nat 92) EmptyString.

(** A string is truthy when it is not empty. *)
Definition nonempty (s : string) : bool :=
  match s with EmptyString => false | _ => true end.

(** A byte that continues a character of several bytes. *)
Definition is_continuation (c : ascii) : bool :=
  let n := nat_of_ascii c in (128 <=? n)%nat && (n <? 192)%nat.

(** The characters of a string, each with all its bytes: a first byte and
    the continuation bytes that follow it.  [cur] is the character being
    read. *)
Fixpoint chars_go (s : string) (cur : string) : list string :=
  match s with
  | EmptyString => if nonempty cur then [cur] else []
  | String c rest =>
      if is_continuation c then chars_go rest (cur +:+ String c EmptyString)
      else (if nonempty cur then [cur] else []) ++ chars_go rest (String c EmptyString)
  end.

Definition chars (s : string) : list string := chars_go s EmptyString.

(** The class [\s] of a regular expression: U+0009 to U+000D, U+0020,
    U+00A0, U+1680, U+2000 to U+200A, U+2028, U+2029, U+202F, U+205F,
    U+3000 and U+FEFF. *)
Definition white_space : list string :=
  List.map bytes
    [ [9]; [10]; [11]; [12]; [13]; [32]; [194; 160]; [225; 154; 128];
      [226; 128; 128]; [226; 128; 129]; [226; 128; 130]; [226; 128; 131];
      [226; 128; 132]; [226; 128; 133]; [226; 128; 134]; [226; 128; 135];
      [226; 128; 136]; [226; 128; 137]; [226; 128; 138];
      [226; 128; 168]; [226; 128; 169]; [226; 128; 175]; [226; 129; 159];
      [227; 128; 128]; [239; 187; 191] ].

(** The character matches [\s]. *)
Definition is_space (char : string) : bool := bool_decide (char ∈ white_space).

(** [s.split(/\s+/)] on the characters of [s]: the pieces between maximal
    runs of white space, the empty pieces at both ends included. [cur] is
    the piece being read and [in_sep] tells that the last character was
    white space. *)
Fixpoint split_go (cs : list string) (cur : string) (in_sep : bool) : list string :=
  match cs with
  | [] => [cur]
  | char :: rest =>
      if is_space char
      then (if in_sep then split_go rest EmptyString true
            else cur :: split_go rest EmptyString true)
      else split_go rest (cur +:+ char) false
  end.

Definition split_spaces (s : string) : list string :=
  split_go (chars s) EmptyString false.

(** Every character of the string is white space. *)
Definition all_space (s : string) : bool := forallb is_space (chars s).

(** [field.includes(keyword)]. *)
Fixpoint includes (field keyword : string) : bool :=
  String.prefix keyword field
  || match field with
     | EmptyString => false
     | String _ rest => includes rest keyword
     end.

(** The members of [Object.prototype] that are functions, in a browser;
    the other member is the accessor [__proto__]. *)
Definition Object_prototype_functions : list string :=
  [ "constructor"; "__defineGetter__"; "__defineSetter__"; "hasOwnProperty";
    "__lookupGetter__"; "__lookupSetter__"; "isPrototypeOf";
    "propertyIsEnumerable"; "toString"; "valueOf"; "toLocaleString" ].

(** [key] names a member of [Object.prototype]: on an object that has no
    property [key] of its own, [o[key]] is that member, which is truthy. *)
Definition inherited (key : string) : bool :=
  bool_decide (key ∈ "__proto__" :: Object_prototype_functions).

(** What the sources ask of the engine beyond the above:
    [s.toLowerCase()], which leaves white space as it is, and the text
    [String(Object.prototype[name])] of a function of [Object.prototype]. *)
Class Engine : Type :=
  { toLowerCase : string -> string;
    toLowerCase_white_space : forall s, all_space s = true -> toLowerCase s = s;
    Function_toString : string -> string }.

(** A number: [text] is what [String(n)] and [n.toString()] give. *)
Record number : Type := { text : string }.

(** [n.toString()] of an integer that a number holds exactly and prints in
    full, as an index of an array is. *)
Definition number_toString (n : Z) : string := NilZero.string_of_int (Z.to_int n).

(** The number of such an integer. *)
Definition of_Z (n : Z) : number := {| text := number_toString n |}.

(** The number is neither an infinity nor [NaN]. *)
Definition finite (n : number) : bool :=
  negb (String.eqb (text n) "Infinity" || String.eqb (text n) "-Infinity"
        || String.eqb (text n) "NaN").

(** A value read from JSON.  The fields of an object are its own
    properties, in the order of [Object.keys]. *)
#[warnings="-register-all"]
Inductive Value : Type :=
| Null
| Bool (b : bool)
| Number (n : number)
| Str (s : string)
| Array (items : list Value)
| Object (fields : list (string * Value)).

Definition hex_digit (n : nat) : ascii :=
  if (n <? 10)%nat then ascii_of_nat (48 + n) else ascii_of_nat (87 + n).

(** The escape of one character inside a JSON string. *)
Definition escape_char (c : ascii) : string :=
  let n := nat_of_ascii c in
  if (n =? 34)%nat then backslash +:+ dquote
  else if (n =? 92)%nat then backslash +:+ backslash
  else if (n =? 8)%nat then backslash +:+ "b"
  else if (n =? 12)%nat then backslash +:+ "f"
  else if (n =? 10)%nat then backslash +:+ "n"
  else if (n =? 13)%nat then backslash +:+ "r"
  else if (n =? 9)%nat then backslash +:+ "t"
  else if (n <? 32)%nat
       then backslash +:+ "u00" +:+
            String (hex_digit (n / 16)) (String (hex_digit (n mod 16)) EmptyString)
  else String c EmptyString.

Fixpoint escape (s : string) : string :=
  match s with
  | EmptyString => EmptyString
  | String c s' => escape_char c +:+ escape s'
  end.

Definition quote (s : string) : string := dquote +:+ escape s +:+ dquote.

(** [JSON.stringify(v)]: a number that is not finite is written [null]. *)
Fixpoint JSON_stringify (v : Value) : string :=
  match v with
  | Null => "null"
  | Bool true => "true"
  | Bool false => "false"
  | Number n => if finite n then text n else "null"
  | Str s => quote s
  | Array items => "[" +:+ String.concat "," (List.map JSON_stringify items) +:+ "]"
  | Object fields =>
      "{" +:+ String.concat ","
                (List.map (fun kv => match kv with
                                     | (k, x) => quote k +:+ ":" +:+ JSON_stringify x
                                     end) fields) +:+ "}"
  end.

(** [typeof v === 'object'], for a [v] that is not [null]. *)
Definition is_object (v : Value) : bool :=
  match v with Array _ | Object _ => true | _ => false end.

(** [String(v)] for a primitive [v]; an object falls to [JSON_stringify]
    before [String] is reached in the sources. *)
Definition String_ (v : Value) : string :=
  match v with
  | Null => "null"
  | Bool true => "true"
  | Bool false => "false"
  | Number n => text n
  | Str s => s
  | Array _ | Object _ => JSON_stringify v
  end.

(** The property [key] of its own of an object read from JSON. *)
Fixpoint get (fields : list (string * Value)) (key : string) : option Value :=
  match fields with
  | [] => None
  | (k, v) :: rest => if String.eqb k key then Some v else get rest key
  end.

(** [rows[i]]: [undefined] outside the array. *)
Definition at_ {A : Type} (l : list A) (i : Z) : option A :=
  if (i <? 0)%Z then None else l !! Z.to_nat i.

(** [a.splice(start, deleteCount, ...items)] for integer arguments: the
    removed elements and the array afterwards.  A negative [start] counts
    from the end, and both numbers are clamped to the array. *)
Definition splice {A : Type} (l : list A) (start deleteCount : Z) (items : list A)
    : list A * list A :=
  let len := Z.of_nat (length l) in
  let actualStart :=
    if (start <? 0)%Z then Z.max (len + start) 0 else Z.min start len in
  let actualDeleteCount := Z.min (Z.max deleteCount 0) (len - actualStart) in
  let i := Z.to_nat actualStart in
  let d := Z.to_nat actualDeleteCount in
  (take d (drop i l), take i l ++ items ++ drop (i + d) l).

End Js.

(* ===================================================================== *)
(** * 2. The data model *)
(* ===================================================================== *)

(** Modelled from the spec: the type [Visibility] of ['../shared'] is not
    among the sources.  A visibility flag is ['visible'] or [false], the two
    values the panel writes ([clearFilters] and [extractDynamicColumns]). *)
Inductive Visibility : Type := visible | hidden.

#[global] Instance Visibility_eq_dec : EqDecision Visibility.
Proof. solve_decision. Defined.

(** The truthiness of a flag, as [filter(([, value]) => value)] reads it. *)
Definition truthy (v : Visibility) : bool :=
  match v with visible => true | hidden => false end.

(** Modelled from the spec: the type [ResultStatus] of ['../shared'] is not
    among the sources.  The triage status is one of ['unchecked'],
    ['true-positive'], ['false-positive']. *)
Inductive ResultStatus : Type := unchecked | true_positive | false_positive.

#[global] Instance ResultStatus_eq_dec : EqDecision ResultStatus.
Proof. solve_decision. Defined.

(** [ResultId]: the log uri, the run index and the result index. *)
Definition ResultId : Type := string * Z * Z.

Definition ResultId_value (id : ResultId) : Js.Value :=
  match id with
  | (logUri, runIndex, resultIndex) =>
      Js.Array [Js.Str logUri; Js.Number (Js.of_Z runIndex);
                Js.Number (Js.of_Z resultIndex)]
  end.

Module Region.
Record t : Type := { startLine : option Js.number }.
End Region.

Module ArtifactLocation.
Record t : Type := { uri : option string; uriBaseId : option string }.
End ArtifactLocation.

Module PhysicalLocation.
Record t : Type :=
  { artifactLocation : option ArtifactLocation.t;
    region : option Region.t }.
End PhysicalLocation.

Module Location.
Record t : Type := { physicalLocation : option PhysicalLocation.t }.
End Location.

Module ReportingDescriptor.
Record t : Type := { id : string; name : option string }.
End ReportingDescriptor.

(** A result after augmentation; [_log_uri] is [result._log._uri]. *)
Module Result.
Record t : Type :=
  { _id : ResultId;
    _log_uri : string;
    _uri : option string;
    _relativeUri : option string;
    _region : option Region.t;
    _message : option string;
    _rule : option ReportingDescriptor.t;
    _suppression : option string;
    level : option string;
    baselineState : option string;
    ruleId : option string;
    locations : option (list Location.t);
    properties : option (list (string * Js.Value)) }.
End Result.

Module Run.
Record t : Type := { results : option (list Result.t) }.
End Run.

Module Log.
Record t : Type :=
  { _uri : string;
    _uriUpgraded : option string;
    runs : option (list Run.t) }.
End Log.

(** The key of a group: the relative uri in the store grouped by file, the
    rule in the store grouped by rule. *)
Inductive GroupKey : Type :=
| ByFile (relativeUri : string)
| ByRule (rule : ReportingDescriptor.t).

(** A row is a group or an item (['./tableStore'] is not among the sources;
    the table component reads [row.key], [row.expanded], [row.title] and
    [row.item]).  A row is an object: [key] stands for its identity. *)
Inductive Row : Type :=
| RowGroup (key : nat) (title : GroupKey) (expanded : bool)
| RowItem (key : nat) (item : Result.t).

(** [a === b] on two rows. *)
Definition Row_is (a b : Row) : bool :=
  match a, b with
  | RowGroup k _ _, RowGroup k' _ _ => Nat.eqb k k'
  | RowItem k _, RowItem k' _ => Nat.eqb k k'
  | _, _ => false
  end.

(** [a === b] on two values of the selection box. *)
Definition selection_is (a b : option Row) : bool :=
  match a, b with
  | None, None => true
  | Some x, Some y => Row_is x y
  | _, _ => false
  end.

(** [new Column(name, width, toString, toNumber)].  [oid] tells the column
    objects of one list of columns apart: it is compared between columns of
    the same store in the same state only, the dynamic columns being made
    anew whenever the dynamic column names change. *)
Module Column.
Record t : Type :=
  { oid : nat;
    name : string;
    width : Z;
    toString : Result.t -> string;
    toNumber : option (Result.t -> Js.number) }.
End Column.

(** The messages the panel posts to the extension.  [setState] carries the
    JSON text of the filters at the time it is posted; the text, whose
    order of keys is that of the insertions into the objects, is not part
    of the message here. *)
Module Post.
Record Select : Type :=
  { logUri : string;
    uri : option string;
    uriBase : option string;
    region : option Region.t;
    id : ResultId }.

Inductive t : Type :=
| load
| setState
| setResultStatus (resultId : string) (status : ResultStatus)
| select (payload : Select)
| selectLog (id : ResultId)
| refresh
| removeResultFixed (id : ResultId)
| setBasePath (logUri uri : string)
| saveStateFile
| loadStateFile.
End Post.

(** The tabs of the panel and the table store of each. *)
Inductive StoreName : Type := resultTableStoreByLocation | resultTableStoreByRule.

Inductive Tab : Type := Locations | Rules | Logs.

Definition Tab_store (tab : Tab) : option StoreName :=
  match tab with
  | Locations => Some resultTableStoreByLocation
  | Rules => Some resultTableStoreByRule
  | Logs => None
  end.

(** One entry of [added] in a ['spliceLogs'] message. *)
Module Added.
Record t : Type :=
  { text : option string;
    uri : string;
    uriUpgraded : option string;
    webviewUri : option string }.
End Added.

(** The commands of the extension to the panel, with their payload;
    [other] is any other value of [command]. *)
Module Command.
Inductive t : Type :=
| select (id : option ResultId)
| spliceLogs (removed : list string) (added : list Added.t)
| spliceResultsFixed (removed added : list string)
| setBanner (text : option string)
| basePathSet
| loadResultStatuses (resultStatuses : option (gmap string ResultStatus))
| other (command : string).
End Command.

(** [event.data]: the markers of the development tools and the command. *)
Module EventData.
Record t : Type :=
  { source : option string;
    type_ : option string;
    command : option Command.t }.
End EventData.

(* ===================================================================== *)
(** * 3. The index store *)
(* ===================================================================== *)

(** [{ Columns: ... }], the shape of [filtersColumn]. *)
Module FiltersColumn.
Record t : Type := { Columns : gmap string Visibility }.
End FiltersColumn.

(** The outcome of a constructor or of an [async] method: it returns, or it
    throws after the mutations it made. *)
Inductive Outcome (A : Type) : Type :=
| Returned (a : A)
| Threw (error : string) (a : A).
Arguments Returned {A} a.
Arguments Threw {A} error a.

(** The state in which the call left the store. *)
Definition outcome_state {A : Type} (o : Outcome A) : A :=
  match o with
  | Returned a => a
  | Threw _ a => a
  end.

Module IndexStore.

(** The fields of the store.  [driverlessRules] is private to the
    augmentation and kept abstract as a list of rules; [pendingTimeouts]
    holds the banners that [setTimeout] will restore, with their delay;
    [posted] is the sequence of messages given to [vscode.postMessage],
    oldest first. *)
Record t : Type :=
  { banner : string;
    driverlessRules : list (string * ReportingDescriptor.t);
    resultStatuses : gmap string ResultStatus;
    dynamicColumns : list string;
    workspaceUri : option string;
    logs : list Log.t;
    resultsFixed : list string;
    selection : option Row;
    columnOrder : list string;
    keywords : string;
    filtersRow : gmap string (gmap string Visibility);
    filtersColumn : FiltersColumn.t;
    selectedTab : Tab;
    pendingTimeouts : list (Z * string);
    posted : list Post.t }.

Definition set_banner (v : string) (s : t) : t :=
  {| banner := v; driverlessRules := driverlessRules s;
     resultStatuses := resultStatuses s; dynamicColumns := dynamicColumns s;
     workspaceUri := workspaceUri s; logs := logs s;
     resultsFixed := resultsFixed s; selection := selection s;
     columnOrder := columnOrder s; keywords := keywords s;
     filtersRow := filtersRow s; filtersColumn := filtersColumn s;
     selectedTab := selectedTab s; pendingTimeouts := pendingTimeouts s;
     posted := posted s |}.

Definition set_driverlessRules (v : list (string * ReportingDescriptor.t)) (s : t) : t :=
  {| banner := banner s; driverlessRules := v;
     resultStatuses := resultStatuses s; dynamicColumns := dynamicColumns s;
     workspaceUri := workspaceUri s; logs := logs s;
     resultsFixed := resultsFixed s; selection := selection s;
     columnOrder := columnOrder s; keywords := keywords s;
     filtersRow := filtersRow s; filtersColumn := filtersColumn s;
     selectedTab := selectedTab s; pendingTimeouts := pendingTimeouts s;
     posted := posted s |}.

Definition set_resultStatuses (v : gmap string ResultStatus) (s : t) : t :=
  {| banner := banner s; driverlessRules := driverlessRules s;
     resultStatuses := v; dynamicColumns := dynamicColumns s;
     workspaceUri := workspaceUri s; logs := logs s;
     resultsFixed := resultsFixed s; selection := selection s;
     columnOrder := columnOrder s; keywords := keywords s;
     filtersRow := filtersRow s; filtersColumn := filtersColumn s;
     selectedTab := selectedTab s; pendingTimeouts := pendingTimeouts s;
     posted := posted s |}.

Definition set_dynamicColumns (v : list string) (s : t) : t :=
  {| banner := banner s; driverlessRules := driverlessRules s;
     resultStatuses := resultStatuses s; dynamicColumns := v;
     workspaceUri := workspaceUri s; logs := logs s;
     resultsFixed := resultsFixed s; selection := selection s;
     columnOrder := columnOrder s; keywords := keywords s;
     filtersRow := filtersRow s; filtersColumn := filtersColumn s;
     selectedTab := selectedTab s; pendingTimeouts := pendingTimeouts s;
     posted := posted s |}.

Definition set_logs (v : list Log.t) (s : t) : t :=
  {| banner := banner s; driverlessRules := driverlessRules s;
     resultStatuses := resultStatuses s; dynamicColumns := dynamicColumns s;
     workspaceUri := workspaceUri s; logs := v;
     resultsFixed := resultsFixed s; selection := selection s;
     columnOrder := columnOrder s; keywords := keywords s;
     filtersRow := filtersRow s; filtersColumn := filtersColumn s;
     selectedTab := selectedTab s; pendingTimeouts := pendingTimeouts s;
     posted := posted s |}.

Definition set_resultsFixed (v : list string) (s : t) : t :=
  {| banner := banner s; driverlessRules := driverlessRules s;
     resultStatuses := resultStatuses s; dynamicColumns := dynamicColumns s;
     workspaceUri := workspaceUri s; logs := logs s;
     resultsFixed := v; selection := selection s;
     columnOrder := columnOrder s; keywords := keywords s;
     filtersRow := filtersRow s; filtersColumn := filtersColumn s;
     selectedTab := selectedTab s; pendingTimeouts := pendingTimeouts s;
     posted := posted s |}.

Definition set_selection (v : option Row) (s : t) : t :=
  {| banner := banner s; driverlessRules := driverlessRules s;
     resultStatuses := resultStatuses s; dynamicColumns := dynamicColumns s;
     workspaceUri := workspaceUri s; logs := logs s;
     resultsFixed := resultsFixed s; selection := v;
     columnOrder := columnOrder s; keywords := keywords s;
     filtersRow := filtersRow s; filtersColumn := filtersColumn s;
     selectedTab := selectedTab s; pendingTimeouts := pendingTimeouts s;
     posted := posted s |}.

Definition set_keywords (v : string) (s : t) : t :=
  {| banner := banner s; driverlessRules := driverlessRules s;
     resultStatuses := resultStatuses s; dynamicColumns := dynamicColumns s;
     workspaceUri := workspaceUri s; logs := logs s;
     resultsFixed := resultsFixed s; selection := selection s;
     columnOrder := columnOrder s; keywords := v;
     filtersRow := filtersRow s; filtersColumn := filtersColumn s;
     selectedTab := selectedTab s; pendingTimeouts := pendingTimeouts s;
     posted := posted s |}.

Definition set_filtersRow (v : gmap string (gmap string Visibility)) (s : t) : t :=
  {| banner := banner s; driverlessRules := driverlessRules s;
     resultStatuses := resultStatuses s; dynamicColumns := dynamicColumns s;
     workspaceUri := workspaceUri s; logs := logs s;
     resultsFixed := resultsFixed s; selection := selection s;
     columnOrder := columnOrder s; keywords := keywords s;
     filtersRow := v; filtersColumn := filtersColumn s;
     selectedTab := selectedTab s; pendingTimeouts := pendingTimeouts s;
     posted := posted s |}.

Definition set_filtersColumn (v : FiltersColumn.t) (s : t) : t :=
  {| banner := banner s; driverlessRules := driverlessRules s;
     resultStatuses := resultStatuses s; dynamicColumns := dynamicColumns s;
     workspaceUri := workspaceUri s; logs := logs s;
     resultsFixed := resultsFixed s; selection := selection s;
     columnOrder := columnOrder s; keywords := keywords s;
     filtersRow := filtersRow s; filtersColumn := v;
     selectedTab := selectedTab s; pendingTimeouts := pendingTimeouts s;
     posted := posted s |}.

Definition set_pendingTimeouts (v : list (Z * string)) (s : t) : t :=
  {| banner := banner s; driverlessRules := driverlessRules s;
     resultStatuses := resultStatuses s; dynamicColumns := dynamicColumns s;
     workspaceUri := workspaceUri s; logs := logs s;
     resultsFixed := resultsFixed s; selection := selection s;
     columnOrder := columnOrder s; keywords := keywords s;
     filtersRow := filtersRow s; filtersColumn := filtersColumn s;
     selectedTab := selectedTab s; pendingTimeouts := v;
     posted := posted s |}.


(** [vscode.postMessage(m)]. *)
Definition postMessage (m : Post.t) (s : t) : t :=
  {| banner := banner s; driverlessRules := driverlessRules s;
     resultStatuses := resultStatuses s; dynamicColumns := dynamicColumns s;
     workspaceUri := workspaceUri s; logs := logs s;
     resultsFixed := resultsFixed s; selection := selection s;
     columnOrder := columnOrder s; keywords := keywords s;
     filtersRow := filtersRow s; filtersColumn := filtersColumn s;
     selectedTab := selectedTab s; pendingTimeouts := pendingTimeouts s;
     posted := posted s ++ [m] |}.

(** [setColumnOrder(order)]. *)
Definition setColumnOrder (order : list string) (s : t) : t :=
  {| banner := banner s; driverlessRules := driverlessRules s;
     resultStatuses := resultStatuses s; dynamicColumns := dynamicColumns s;
     workspaceUri := workspaceUri s; logs := logs s;
     resultsFixed := resultsFixed s; selection := selection s;
     columnOrder := order; keywords := keywords s;
     filtersRow := filtersRow s; filtersColumn := filtersColumn s;
     selectedTab := selectedTab s; pendingTimeouts := pendingTimeouts s;
     posted := posted s |}.

(** What the store imports from modules that are not among the sources:
    the default filter tables, the augmentation of a log, the lookup of a
    result by identity and the split of an artifact location from
    ['../shared']; from ['./tableStore'] the row object that a table store
    keeps for a result, named by its identity ([rowItem_key]); [JSON.parse]
    of a log text and the fetch of a log from the web view, [None] where
    they throw. *)
Class Imports : Type :=
  { shared_filtersRow : gmap string (gmap string Visibility);
    shared_filtersColumn : FiltersColumn.t;
    augmentLog :
      Log.t -> list (string * ReportingDescriptor.t) -> option string ->
      Log.t * list (string * ReportingDescriptor.t);
    findResult : list Log.t -> ResultId -> option Result.t;
    parseArtifactLocation :
      Result.t -> option ArtifactLocation.t ->
      option string * option string * option string;
    rowItem_key : StoreName -> Result.t -> nat;
    JSON_parse : string -> option Log.t;
    fetch_json : option string -> option Log.t }.

Section Store.
Context `{Imports}.

(** ** Construction *)

(** [new IndexStore(state, workspaceUri)], with [defaultSelection] unset.
    [filtersRow] is the one of the persisted blob; [filtersColumn.Columns]
    is the spread of the defaults overridden by the persisted entries.
    Reading [this.filtersRow.Level] throws when the blob has no row filters,
    and [observe] throws on a category that is [undefined]. *)
Definition new (state : gmap string (gmap string (gmap string Visibility)))
    (workspaceUri : option string) : option t :=
  match state !! "filtersRow" with
  | None => None
  | Some filtersRow =>
      let persisted : gmap string Visibility :=
        default ∅ (state !! "filtersColumn" ≫= fun fc => fc !! "Columns") in
      let filtersColumn :=
        {| FiltersColumn.Columns :=
             persisted ∪ FiltersColumn.Columns shared_filtersColumn |} in
      match filtersRow !! "Level", filtersRow !! "Baseline", filtersRow !! "Suppression" with
      | Some _, Some _, Some _ =>
          Some {| banner := EmptyString;
                  driverlessRules := [];
                  resultStatuses := ∅;
                  dynamicColumns := [];
                  workspaceUri := workspaceUri;
                  logs := [];
                  resultsFixed := [];
                  selection := None;
                  columnOrder := [];
                  keywords := EmptyString;
                  filtersRow := filtersRow;
                  filtersColumn := filtersColumn;
                  selectedTab := Locations;
                  pendingTimeouts := [];
                  posted := [] |}
      | _, _, _ => None
      end
  end.

(** ** The selection and its reaction *)

(** [postSelectArtifact(result, ploc)]; [active] is the answer of
    [isActive()]. *)
Definition postSelectArtifact (active : bool) (result : Result.t)
    (ploc : option PhysicalLocation.t) (s : t) : t :=
  if negb active then s
  else match ploc with
       | None => s
       | Some p =>
           match parseArtifactLocation result (PhysicalLocation.artifactLocation p) with
           | (uri, uriBase, uriContent) =>
               postMessage
                 (Post.select
                    {| Post.logUri := Result._log_uri result;
                       Post.uri := match uriContent with Some c => Some c | None => uri end;
                       Post.uriBase := uriBase;
                       Post.region := PhysicalLocation.region p;
                       Post.id := Result._id result |}) s
           end
       end.

(** [result.locations?.[0]?.physicalLocation]. *)
Definition first_physicalLocation (result : Result.t) : option PhysicalLocation.t :=
  match Result.locations result with
  | Some (first :: _) => Location.physicalLocation first
  | _ => None
  end.

(** [!!result._uri]. *)
Definition has_uri (result : Result.t) : bool :=
  match Result._uri result with
  | Some u => Js.nonempty u
  | None => false
  end.

(** The body of the [autorun] of the constructor. *)
Definition autorun_selection (active : bool) (s : t) : t :=
  match selection s with
  | Some (RowItem _ result) =>
      if negb (has_uri result) then s
      else postSelectArtifact active result (first_physicalLocation result) s
  | _ => s
  end.

(** [this.selection.set(row)]: the box keeps a value that is the one it
    holds; a new value is stored and the [autorun] runs. *)
Definition selection_set (active : bool) (row : option Row) (s : t) : t :=
  if selection_is (selection s) row then s
  else autorun_selection active (set_selection row s).

(** Modelled from the spec: [select] of the table store, whose class is in
    ['./tableStore'] and not among the sources.  By the table of the
    inbound commands (spec, 6), ['select'] is to set the selection by result
    identity: [select(result)] sets the selection box, which the table
    stores share with the index store, to the item row that the store keeps
    for the result. *)
Definition TableStore_select (active : bool) (store : StoreName) (result : Result.t)
    (s : t) : t :=
  selection_set active (Some (RowItem (rowItem_key store result) result)) s.

(** ** Dynamic columns *)

(** [propertyKeys.add(key)] on a [Set] kept in insertion order. *)
Definition Set_add (keys : list string) (key : string) : list string :=
  if bool_decide (key ∈ keys) then keys else keys ++ [key].

(** [Object.keys(result.properties)], nothing without properties. *)
Definition Object_keys (result : Result.t) : list string :=
  match Result.properties result with
  | Some fields => List.map fst fields
  | None => []
  end.

(** The first loop of [extractDynamicColumns]: the property keys of the
    results of the log, ['tags'] left out. *)
Definition propertyKeys (log : Log.t) : list string :=
  foldl (fun keys run =>
           foldl (fun keys result =>
                    foldl (fun keys key =>
                             if negb (String.eqb key "tags") then Set_add keys key else keys)
                          keys (Object_keys result))
                 keys (default [] (Run.results run)))
        [] (default [] (Log.runs log)).

(** [setState()], run by [observe] when a flag of an observed object is
    added or changes: it posts the filters. *)
Definition setState (s : t) : t := postMessage Post.setState s.

(** The body of the second loop: a key that is not yet a dynamic column is
    pushed, and [filtersColumn.Columns[key]] is set to [false] unless it is
    truthy.  What is read is the flag of the key, or else the member of
    [Object.prototype] of that name, which is truthy.  Writing [false] over
    [false] changes nothing; writing a new flag runs [setState]. *)
Definition register_key (s : t) (key : string) : t :=
  if bool_decide (key ∈ dynamicColumns s) then s
  else
    let s1 := set_dynamicColumns (dynamicColumns s ++ [key]) s in
    let columns := FiltersColumn.Columns (filtersColumn s1) in
    match columns !! key with
    | Some visible => s1
    | Some hidden =>
        set_filtersColumn {| FiltersColumn.Columns := <[key := hidden]> columns |} s1
    | None =>
        if Js.inherited key then s1
        else setState
               (set_filtersColumn
                  {| FiltersColumn.Columns := <[key := hidden]> columns |} s1)
    end.

Definition extractDynamicColumns (log : Log.t) (s : t) : t :=
  foldl register_key s (propertyKeys log).

(** ** The list of logs and its reactions *)

(** The [observe] of [logs]: an empty list clears the selection. *)
Definition logs_observer (active : bool) (s : t) : t :=
  match logs s with
  | [] => selection_set active None s
  | _ :: _ => s
  end.

(** The [intercept] of [logs] on one added log: augmentation, then the
    discovery of the dynamic columns; the augmented log is the one stored. *)
Definition logs_intercept_added (log : Log.t) (s : t) : Log.t * t :=
  match augmentLog log (driverlessRules s) (workspaceUri s) with
  | (log', rules) => (log', extractDynamicColumns log' (set_driverlessRules rules s))
  end.

(** [this.logs.splice(i, 1)]: the log at [i] goes and the observer runs;
    past the end nothing is removed and nothing is notified. *)
Definition logs_splice (active : bool) (i : nat) (s : t) : t :=
  if (i <? length (logs s))%nat
  then logs_observer active (set_logs (delete i (logs s)) s)
  else s.

(** [this.logs.push(log)]: the [intercept], the push and the [observe]. *)
Definition logs_push (active : bool) (log : Log.t) (s : t) : t :=
  match logs_intercept_added log s with
  | (log', s1) => logs_observer active (set_logs (logs s1 ++ [log']) s1)
  end.

(** [this.logs.findIndex(log => log._uri === uri)]. *)
Fixpoint findIndex (uri : string) (l : list Log.t) : option nat :=
  match l with
  | [] => None
  | log :: rest =>
      if String.eqb (Log._uri log) uri then Some 0%nat
      else S <$> findIndex uri rest
  end.

(** One turn of the loop over [event.data.removed]. *)
Definition remove_log (active : bool) (s : t) (uri : string) : t :=
  match findIndex uri (logs s) with
  | Some i => logs_splice active i s
  | None => s
  end.

(** ** Triage status *)

Definition setResultStatus (resultId : string) (status : ResultStatus) (s : t) : t :=
  postMessage (Post.setResultStatus resultId status)
              (set_resultStatuses (<[resultId := status]> (resultStatuses s)) s).

(** [this.resultStatuses[resultId] || 'unchecked']: every status is a
    string that is not empty, hence truthy.  A [resultId] is the JSON text
    of an identity, which is no name of a member of [Object.prototype]. *)
Definition getResultStatus (resultId : string) (s : t) : ResultStatus :=
  match resultStatuses s !! resultId with
  | Some status => status
  | None => unchecked
  end.

(** ** Filters *)

(** The categories of row filters that the constructor observes. *)
Definition observed_categories : list string := ["Level"; "Baseline"; "Suppression"].

(** The flags of a category that are not ['visible']. *)
Definition hidden_flags (values : gmap string Visibility) : nat :=
  length (List.filter (fun entry : string * Visibility => negb (truthy (snd entry)))
            (map_to_list values)).

(** The writes of [clearFilters] that change a flag of an observed
    category: each runs [setState]. *)
Definition observed_changes (s : t) : nat :=
  foldr (fun category n => (hidden_flags (default ∅ (filtersRow s !! category)) + n)%nat)
        0%nat observed_categories.

(** [clearFilters()]: the key words are emptied and every flag of every
    category is written ['visible']; [setState] runs once for each write
    that changes a flag of an observed category. *)
Definition clearFilters (s : t) : t :=
  Nat.iter (observed_changes s) setState
    (set_filtersRow
       ((fun values : gmap string Visibility => (fun _ : Visibility => visible) <$> values)
          <$> filtersRow s)
       (set_keywords EmptyString s)).

(** ** Messages of the extension *)

(** [this.resultsFixed.remove(x)]: the first occurrence goes. *)
Fixpoint remove_first (x : string) (l : list string) : list string :=
  match l with
  | [] => []
  | y :: rest => if String.eqb y x then rest else y :: remove_first x rest
  end.

(** [!!field] of an optional string. *)
Definition present (field : option string) : bool :=
  match field with
  | Some v => Js.nonempty v
  | None => false
  end.

(** One turn of the loop over [event.data.added]; a text that does not
    parse, or a fetch that fails, throws and ends the handler. *)
Definition add_log (active : bool) (acc : Outcome t) (a : Added.t) : Outcome t :=
  match acc with
  | Threw e s => Threw e s
  | Returned s =>
      let parsed :=
        if present (Added.text a) then JSON_parse (default EmptyString (Added.text a))
        else fetch_json (Added.webviewUri a) in
      match parsed with
      | None => Threw "SyntaxError" s
      | Some log =>
          Returned (logs_push active
                      {| Log._uri := Added.uri a;
                         Log._uriUpgraded := Added.uriUpgraded a;
                         Log.runs := Log.runs log |} s)
      end
  end.

(** [onMessage(event)]; [data] is [None] for a falsy [event.data]. *)
Definition onMessage (active : bool) (data : option EventData.t) (s : t) : Outcome t :=
  match data with
  | None => Returned s
  | Some d =>
      if present (EventData.source d) then Returned s
      else if present (EventData.type_ d) then Returned s
      else
        match EventData.command d with
        | Some (Command.select None) => Returned (selection_set active None s)
        | Some (Command.select (Some id)) =>
            match findResult (logs s) id with
            | None => Threw "Unexpected: result undefined" s
            | Some result =>
                match Tab_store (selectedTab s) with
                | Some store => Returned (TableStore_select active store result s)
                | None => Returned s
                end
            end
        | Some (Command.spliceLogs removed added) =>
            foldl (add_log active) (Returned (foldl (remove_log active) s removed)) added
        | Some (Command.spliceResultsFixed removed added) =>
            Returned (set_resultsFixed
                        (foldl (fun (fixed : list string) x => (fixed ++ [x])%list)
                               (foldl (fun (fixed : list string) x => remove_first x fixed) (resultsFixed s) removed)
                               added) s)
        | Some (Command.setBanner text) =>
            Returned (set_banner (default EmptyString text) s)
        | Some Command.basePathSet =>
            Returned (set_pendingTimeouts
                        (pendingTimeouts s ++ [(3000%Z, banner s)])
                        (set_banner "Base path updated. Paths should now resolve." s))
        | Some (Command.loadResultStatuses statuses) =>
            Returned (set_resultStatuses (default ∅ statuses) s)
        | Some (Command.other _) | None => Returned s
        end
  end.

(** ** The results of the logs *)

(** The getter [runs], [this.logs.map(log => log.runs).flat()]: the runs
    of the logs in order; a log without [runs] leaves its [undefined] in
    the list. *)
Definition runs (s : t) : list (option Run.t) :=
  concat (List.map (fun log =>
                      match Log.runs log with
                      | Some rs => List.map Some rs
                      | None => [None]
                      end) (logs s)).

(** [runs.map(run => run.results ?? []).flat()]: reading [results] of an
    [undefined] run throws. *)
Fixpoint results_of (rs : list (option Run.t)) : option (list Result.t) :=
  match rs with
  | [] => Some []
  | None :: _ => None
  | Some run :: rest =>
      match results_of rest with
      | Some found => Some (default [] (Run.results run) ++ found)
      | None => None
      end
  end.

(** The getter [results]. *)
Definition results (s : t) : option (list Result.t) := results_of (runs s).

(** ** Persistence *)

(** The object [state] that [setState] serializes for the extension. *)
Definition setState_state (s : t) : gmap string (gmap string (gmap string Visibility)) :=
  {[ "filtersRow" := filtersRow s;
     "filtersColumn" := {[ "Columns" := FiltersColumn.Columns (filtersColumn s) ]} ]}.

(** ** Timers *)

(** The callback of the oldest pending [setTimeout] runs (all have the
    same delay): [this.banner = oldBanner]. *)
Definition timeout_fires (s : t) : t :=
  match pendingTimeouts s with
  | [] => s
  | (_, oldBanner) :: rest => set_pendingTimeouts rest (set_banner oldBanner s)
  end.

End Store.
End IndexStore.

(* ===================================================================== *)
(** * 4. The result table store *)
(* ===================================================================== *)

Module ResultTableStore.

(** The arguments of the constructor that the store keeps; the two sources
    and the selection box are the index store. *)
Record t : Type :=
  { groupName : string;
    groupBy : Result.t -> option GroupKey }.

(** The two stores of the index store. *)
Definition byLocation : t :=
  {| groupName := "File";
     groupBy := fun result => ByFile <$> Result._relativeUri result |}.

Definition byRule : t :=
  {| groupName := "Rule";
     groupBy := fun result => ByRule <$> Result._rule result |}.

Definition of_name (store : StoreName) : t :=
  match store with
  | resultTableStoreByLocation => byLocation
  | resultTableStoreByRule => byRule
  end.

(** [JSON.stringify(result._id)]. *)
Definition id_key (result : Result.t) : string :=
  Js.JSON_stringify (ResultId_value (Result._id result)).

Definition columnsPermanent : list Column.t := [].

(** The built-in columns; the text of ['Status'] reads the triage map of
    the index store. *)
Definition columnsOptional (src : IndexStore.t) : list Column.t :=
  [ {| Column.oid := 0; Column.name := "Line"; Column.width := 50;
       Column.toString := fun result =>
         match Result._region result ≫= Region.startLine with
         | Some line => Js.text line
         | None => Js.emdash
         end;
       Column.toNumber := Some (fun result =>
         default (Js.of_Z 0) (Result._region result ≫= Region.startLine)) |};
    {| Column.oid := 1; Column.name := "File"; Column.width := 250;
       Column.toString := fun result => default EmptyString (Result._relativeUri result);
       Column.toNumber := None |};
    {| Column.oid := 2; Column.name := "Status"; Column.width := 100;
       Column.toString := fun result =>
         match IndexStore.resultStatuses src !! id_key result with
         | Some true_positive => "TP"
         | Some false_positive => "FP"
         | _ => Js.emdash
         end;
       Column.toNumber := None |};
    {| Column.oid := 3; Column.name := "Message"; Column.width := 300;
       Column.toString := fun result => default EmptyString (Result._message result);
       Column.toNumber := None |};
    {| Column.oid := 4; Column.name := "Baseline"; Column.width := 100;
       Column.toString := fun result => default EmptyString (Result.baselineState result);
       Column.toNumber := None |};
    {| Column.oid := 5; Column.name := "Suppression"; Column.width := 100;
       Column.toString := fun result => default EmptyString (Result._suppression result);
       Column.toNumber := None |};
    {| Column.oid := 6; Column.name := "Rule"; Column.width := 220;
       Column.toString := fun result =>
         default Js.emdash (Result._rule result ≫= ReportingDescriptor.name)
         +:+ " " +:+ default Js.emdash (Result.ruleId result);
       Column.toNumber := None |} ].

Section Engine.
Context `{Js.Engine}.

(** The text of a dynamic column: the property under [key].  Where the
    properties of the result have no [key] of their own, what is read is
    [undefined], or else the member of [Object.prototype] of that name: the
    prototype itself for [__proto__], an object without properties of its
    own, and a function otherwise. *)
Definition property_text (key : string) (result : Result.t) : string :=
  match Result.properties result with
  | None => Js.emdash
  | Some fields =>
      match Js.get fields key with
      | Some Js.Null => Js.emdash
      | Some value =>
          if Js.is_object value then Js.JSON_stringify value else Js.String_ value
      | None =>
          if String.eqb key "__proto__" then "{}"
          else if bool_decide (key ∈ Js.Object_prototype_functions)
               then Js.Function_toString key
               else Js.emdash
      end
  end.

(** [dynamicPropertyColumns]: one fresh column for each dynamic column
    name, in order. *)
Definition dynamicPropertyColumns (src : IndexStore.t) : list Column.t :=
  imap (fun i key =>
          {| Column.oid := 7 + i; Column.name := key; Column.width := 150;
             Column.toString := property_text key;
             Column.toNumber := None |})
       (IndexStore.dynamicColumns src).

Definition columns (src : IndexStore.t) : list Column.t :=
  columnsPermanent ++ columnsOptional src ++ dynamicPropertyColumns src.

(** The default sort column of the constructor. *)
Definition default_sortColumn (src : IndexStore.t) : string :=
  match columnsOptional src with
  | first :: _ => Column.name first
  | [] => "Line"
  end.

(** The names whose flag in [filtersColumn.Columns] is truthy. *)
Definition optionalColumnNames (src : IndexStore.t) : list string :=
  List.map fst
    (List.filter (fun entry : string * Visibility => truthy (snd entry))
       (map_to_list (FiltersColumn.Columns (IndexStore.filtersColumn src)))).

(** The columns before the custom order is applied. *)
Definition unorderedColumns (ts : t) (src : IndexStore.t) : list Column.t :=
  let names := optionalColumnNames src in
  List.filter (fun col => negb (String.eqb (Column.name col) (groupName ts))) columnsPermanent
  ++ List.filter (fun col => bool_decide (Column.name col ∈ names)) (columnsOptional src)
  ++ List.filter (fun col => bool_decide (Column.name col ∈ names)) (dynamicPropertyColumns src).

(** [orderedColumns.includes(col)], on the identity of the column. *)
Definition includes_column (cols : list Column.t) (col : Column.t) : bool :=
  existsb (fun c => Nat.eqb (Column.oid c) (Column.oid col)) cols.

Definition visibleColumns (ts : t) (src : IndexStore.t) : list Column.t :=
  let unordered := unorderedColumns ts src in
  match IndexStore.columnOrder src with
  | [] => unordered
  | order =>
      let named :=
        foldl (fun ordered colName =>
                 match List.find (fun c => String.eqb (Column.name c) colName) unordered with
                 | Some col => ordered ++ [col]
                 | None => ordered
                 end) [] order in
      foldl (fun ordered col =>
               if includes_column ordered col then ordered else ordered ++ [col])
            named unordered
  end.

(** [mapToList] of the filter: the lower-cased labels whose flag is
    truthy. *)
Definition mapToList (record : gmap string Visibility) : list string :=
  List.map (fun entry : string * Visibility => Js.toLowerCase (fst entry))
    (List.filter (fun entry : string * Visibility => truthy (snd entry))
       (map_to_list record)).

(** The key words of the filter. *)
Definition filterKeywords (src : IndexStore.t) : list string :=
  List.filter Js.nonempty (Js.split_spaces (Js.toLowerCase (IndexStore.keywords src))).

Definition isMatch (field : string) (keywords : list string) : bool :=
  (length keywords =? 0)%nat || existsb (fun keyword => Js.includes field keyword) keywords.

(** The getter [filter]: [None] when a category of [filtersRow] is
    [undefined], where [Object.entries] throws. *)
Definition filter (src : IndexStore.t) : option (Result.t -> bool) :=
  match IndexStore.filtersRow src !! "Level",
        IndexStore.filtersRow src !! "Baseline",
        IndexStore.filtersRow src !! "Suppression" with
  | Some Level, Some Baseline, Some Suppression =>
      let columns := columns src in
      let levels := mapToList Level in
      let baselines := mapToList Baseline in
      let suppressions := mapToList Suppression in
      let filterKeywords := filterKeywords src in
      Some (fun result =>
        if negb (bool_decide (default EmptyString (Result.level result) ∈ levels)) then false
        else if negb (bool_decide (default EmptyString (Result.baselineState result) ∈ baselines)) then false
        else if negb (bool_decide (default EmptyString (Result._suppression result) ∈ suppressions)) then false
        else existsb (fun col =>
                        let field := Js.toLowerCase (Column.toString col result) in
                        isMatch field filterKeywords) columns)
  | _, _, _ => None
  end.

Definition isLineThrough (src : IndexStore.t) (result : Result.t) : bool :=
  bool_decide (id_key result ∈ IndexStore.resultsFixed src).

Definition getResultStatus (src : IndexStore.t) (result : Result.t) : ResultStatus :=
  default unchecked (IndexStore.resultStatuses src !! id_key result).


(** [moveColumn(fromIndex, toIndex)]: the names of the visible columns with
    the one at [fromIndex] taken out and put back at [toIndex] become the
    column order.  [None] stands for the call whose [moved] is [undefined]
    (no column at [fromIndex]): the code then stores an order that holds
    [undefined], which [columnOrder: string[]] has no value for. *)
Definition moveColumn (ts : t) (fromIndex toIndex : Z) (src : IndexStore.t)
    : option IndexStore.t :=
  let columns := List.map Column.name (visibleColumns ts src) in
  match Js.splice columns fromIndex 1 [] with
  | (moved :: _, columns) =>
      Some (IndexStore.setColumnOrder (snd (Js.splice columns toIndex 0 [moved])) src)
  | ([], _) => None
  end.

End Engine.
End ResultTableStore.

(* ===================================================================== *)
(** * 5. The keys of the table *)
(* ===================================================================== *)

Module Table.

(** [rows.indexOf(selection.get())]: the first index of the selected row,
    [-1] when there is none; no row is [undefined]. *)
Fixpoint indexOf_from (rows : list Row) (selected : option Row) (i : Z) : Z :=
  match rows with
  | [] => (-1)%Z
  | row :: rest =>
      if selection_is (Some row) selected then i
      else indexOf_from rest selected (i + 1)%Z
  end.

Definition indexOf (rows : list Row) (selected : option Row) : Z :=
  indexOf_from rows selected 0%Z.

(** [a ?? b]. *)
Definition nullish {A : Type} (a b : option A) : option A :=
  match a with Some _ => a | None => b end.

(** [onKeyDown(e)] on the rows of the store, for [e.key]; the boolean
    tells that the event was stopped and its default prevented. *)
Definition onKeyDown `{IndexStore.Imports} (active : bool) (key : string)
    (rows : list Row) (s : IndexStore.t) : bool * IndexStore.t :=
  let index := indexOf rows (IndexStore.selection s) in
  if String.eqb key "ArrowUp" then
    (true, IndexStore.selection_set active
             (nullish (Js.at_ rows (index - 1)) (nullish (Js.at_ rows index) (Js.at_ rows 0))) s)
  else if String.eqb key "ArrowDown" then
    (true, IndexStore.selection_set active
             (nullish (Js.at_ rows (index + 1)) (Js.at_ rows index)) s)
  else if String.eqb key "Escape" then
    (true, IndexStore.selection_set active None s)
  else (false, s).

End Table.

(* ===================================================================== *)
(** * 6. A panel to run the stores on *)
(* ===================================================================== *)

Module Sample.

(** The engine of the sample.  The text of the sample panel is ASCII, but
    for the dash, and on such text [toLowerCase] changes the letters [A] to
    [Z] only. *)
Definition lower_ascii (c : ascii) : ascii :=
  let n := nat_of_ascii c in
  if (65 <=? n)%nat && (n <=? 90)%nat then ascii_of_nat (n + 32) else c.

Fixpoint toLowerCase (s : string) : string :=
  match s with
  | EmptyString => EmptyString
  | String c s' => String (lower_ascii c) (toLowerCase s')
  end.

(** The text of a function of [Object.prototype], as V8 prints it. *)
Definition Function_toString (name : string) : string :=
  "function " +:+ (if String.eqb name "constructor" then "Object" else name)
  +:+ "() { [native code] }".

(** White space has no letter [A] to [Z]: lower-casing the characters of a
    string of white space one after the other gives the string back. *)
#[export] Instance engine : Js.Engine.
Proof.
  refine {| Js.toLowerCase := toLowerCase;
            Js.toLowerCase_white_space := _;
            Js.Function_toString := Function_toString |}.
  assert (∀ a b, toLowerCase (a +:+ b) = toLowerCase a +:+ toLowerCase b) as Happ.
  { intros a b. induction a as [| c a IH]; [done |].
    change (String (lower_ascii c) (toLowerCase (a +:+ b))
            = String (lower_ascii c) (toLowerCase a +:+ toLowerCase b)).
    by rewrite IH. }
  assert (∀ a, a +:+ EmptyString = a) as Hnil.
  { intros a. induction a as [| c a IH]; [done |].
    change (String c (a +:+ EmptyString) = String c a). by rewrite IH. }
  assert (∀ a c b, (a +:+ String c EmptyString) +:+ b = a +:+ String c b) as Hsnoc.
  { intros a c b. induction a as [| d a IH]; [done |].
    change (String d ((a +:+ String c EmptyString) +:+ b) = String d (a +:+ String c b)).
    by rewrite IH. }
  assert (∀ s cur, foldr String.append EmptyString (Js.chars_go s cur) = cur +:+ s) as Hflat.
  { intros s. induction s as [| c s IH]; intros cur; cbn [Js.chars_go].
    - rewrite Hnil. destruct cur as [| d cur]; [done |].
      cbn [Js.nonempty foldr]. apply Hnil.
    - destruct (Js.is_continuation c).
      + rewrite IH. apply Hsnoc.
      + rewrite foldr_app, IH. destruct cur as [| d cur]; [done |].
        cbn [Js.nonempty foldr]. done. }
  assert (∀ char, Js.is_space char = true → toLowerCase char = char) as Hspace.
  { unfold Js.is_space. intros char Hin%bool_decide_eq_true.
    assert (Forall (fun c => toLowerCase c = c) Js.white_space) as Hall
      by (apply (bool_decide_unpack _); vm_compute; exact I).
    rewrite Forall_forall in Hall. by apply Hall. }
  unfold Js.all_space, Js.chars. intros s Hall.
  pose proof (Hflat s EmptyString) as Hs.
  change (EmptyString +:+ s) with s in Hs.
  remember (Js.chars_go s EmptyString) as cs eqn:Hcs. clear Hcs. subst s.
  induction cs as [| char rest IH]; [done |].
  cbn [forallb] in Hall. apply andb_true_iff in Hall as [Hchar Hrest].
  cbn [foldr]. rewrite Happ, Hspace by done.
  by rewrite IH.
Defined.

(** Default tables for the sample (those of ['../shared'] are not among
    the sources): the row filters have the three categories that the store
    reads, with the levels and the baseline states of SARIF; the column
    filters list the built-in columns. *)
Definition filtersRow : gmap string (gmap string Visibility) :=
  {[ "Level" := {[ "Error" := visible; "Warning" := visible;
                   "Note" := visible; "None" := visible ]};
     "Baseline" := {[ "New" := visible; "Unchanged" := visible;
                      "Updated" := visible; "Absent" := hidden ]};
     "Suppression" := {[ "Not Suppressed" := visible; "Suppressed" := hidden ]} ]}.

Definition filtersColumn : FiltersColumn.t :=
  {| FiltersColumn.Columns :=
       {[ "Line" := visible; "File" := visible; "Status" := visible;
          "Message" := visible; "Baseline" := hidden;
          "Suppression" := hidden; "Rule" := visible ]} |}.

(** The lookup of a result by identity: the log of that uri, then the run
    and the result at the two indices. *)
Definition findResult (logs : list Log.t) (id : ResultId) : option Result.t :=
  match id with
  | (logUri, runIndex, resultIndex) =>
      log ← List.find (fun log => String.eqb (Log._uri log) logUri) logs;
      runs ← Log.runs log;
      run ← Js.at_ runs runIndex;
      results ← Run.results run;
      Js.at_ results resultIndex
  end.

(** A result of rule [foobar] in [src/a.c], line 3, with a physical
    location and the properties [props]. *)
Definition result_with (index : Z) (props : option (list (string * Js.Value))) : Result.t :=
  {| Result._id := ("file:///log.sarif", 0%Z, index);
     Result._log_uri := "file:///log.sarif";
     Result._uri := Some "file:///src/a.c";
     Result._relativeUri := Some "src/a.c";
     Result._region := Some {| Region.startLine := Some (Js.of_Z 3) |};
     Result._message := Some "Unused variable";
     Result._rule := Some {| ReportingDescriptor.id := "R1";
                             ReportingDescriptor.name := Some "foobar" |};
     Result._suppression := Some "not suppressed";
     Result.level := Some "error";
     Result.baselineState := Some "new";
     Result.ruleId := Some "R1";
     Result.locations :=
       Some [ {| Location.physicalLocation :=
                   Some {| PhysicalLocation.artifactLocation :=
                             Some {| ArtifactLocation.uri := Some "src/a.c";
                                     ArtifactLocation.uriBaseId := None |};
                           PhysicalLocation.region :=
                             Some {| Region.startLine := Some (Js.of_Z 3) |} |} |} ];
     Result.properties := props |}.

Definition result1 : Result.t := result_with 0 None.

(** The same finding without any location. *)
Definition result_nowhere : Result.t :=
  {| Result._id := ("file:///log.sarif", 0%Z, 1%Z);
     Result._log_uri := "file:///log.sarif";
     Result._uri := None;
     Result._relativeUri := None;
     Result._region := None;
     Result._message := Some "Unused variable";
     Result._rule := None;
     Result._suppression := Some "not suppressed";
     Result.level := Some "error";
     Result.baselineState := Some "new";
     Result.ruleId := Some "R1";
     Result.locations := None;
     Result.properties := None |}.

Definition log_of (results : list Result.t) : Log.t :=
  {| Log._uri := "file:///log.sarif";
     Log._uriUpgraded := None;
     Log.runs := Some [ {| Run.results := Some results |} ] |}.

(** The result of [log_props]. *)
Definition result_props : Result.t :=
  result_with 0 (Some [ ("security-severity", Js.Str "8.1");
                        ("tags", Js.Array [Js.Str "security"]);
                        ("File", Js.Str "generated.c") ]).

(** A log whose result has the properties [security-severity], [tags] and
    [File]. *)
Definition log_props : Log.t := log_of [result_props].

(** A log whose result has the properties [precision] and [constructor]. *)
Definition log_constructor : Log.t :=
  log_of [ result_with 0 (Some [ ("precision", Js.Str "high");
                                 ("constructor", Js.Str "Parser") ]) ].

(** The web view of the sample serves one log, [log_props], and the only
    text that parses is an object without [runs]. *)
Definition webviewUri : string := "vscode-webview://panel/log.sarif".

Definition fetch_json (uri : option string) : option Log.t :=
  match uri with
  | Some u => if String.eqb u webviewUri then Some log_props else None
  | None => None
  end.

Definition JSON_parse (text : string) : option Log.t :=
  if String.eqb text "{}"
  then Some {| Log._uri := EmptyString; Log._uriUpgraded := None; Log.runs := None |}
  else None.

(** In the sample a table store keeps the item rows in the order of the
    results: the row of a result is named by the index of the result. *)
#[export] Instance imports : IndexStore.Imports :=
  {| IndexStore.shared_filtersRow := filtersRow;
     IndexStore.shared_filtersColumn := filtersColumn;
     IndexStore.augmentLog := fun log rules _ => (log, rules);
     IndexStore.findResult := findResult;
     IndexStore.parseArtifactLocation := fun _ loc =>
       (loc ≫= ArtifactLocation.uri, loc ≫= ArtifactLocation.uriBaseId, None);
     IndexStore.rowItem_key := fun _ result => Z.to_nat (snd (Result._id result));
     IndexStore.JSON_parse := JSON_parse;
     IndexStore.fetch_json := fetch_json |}.

(** The persisted blob of a first start: the defaults. *)
Definition state0 : gmap string (gmap string (gmap string Visibility)) :=
  {[ "filtersRow" := filtersRow;
     "filtersColumn" := {[ "Columns" := FiltersColumn.Columns filtersColumn ]} ]}.

(** A blob written before ['None'] became a level and before the
    ['Status'] column existed, with the ['Rule'] column hidden. *)
Definition state_old : gmap string (gmap string (gmap string Visibility)) :=
  {[ "filtersRow" :=
       {[ "Level" := {[ "Error" := visible; "Warning" := visible; "Note" := hidden ]};
          "Baseline" := {[ "New" := visible; "Unchanged" := visible ]};
          "Suppression" := {[ "Not Suppressed" := visible ]} ]};
     "filtersColumn" :=
       {[ "Columns" := {[ "Line" := visible; "File" := visible;
                          "Message" := visible; "Rule" := hidden ]} ]} ]}.

(** The store built from the defaults. *)
Definition store0 : IndexStore.t :=
  default
    {| IndexStore.banner := EmptyString; IndexStore.driverlessRules := [];
       IndexStore.resultStatuses := ∅; IndexStore.dynamicColumns := [];
       IndexStore.workspaceUri := None; IndexStore.logs := [];
       IndexStore.resultsFixed := []; IndexStore.selection := None;
       IndexStore.columnOrder := []; IndexStore.keywords := EmptyString;
       IndexStore.filtersRow := ∅;
       IndexStore.filtersColumn := {| FiltersColumn.Columns := ∅ |};
       IndexStore.selectedTab := Locations; IndexStore.pendingTimeouts := [];
       IndexStore.posted := [] |}
    (IndexStore.new state0 None).

Definition row1 : Row := RowItem 0 result1.
Definition row2 : Row := RowItem 1 result_nowhere.
Definition group1 : Row := RowGroup 0 (ByFile "src/a.c") true.

(** The store with one log and a row selected. *)
Definition store_selected (row : Row) : IndexStore.t :=
  IndexStore.set_selection (Some row) (IndexStore.set_logs [log_of [result1]] store0).


(** The store with the key word [foo] typed and the ['Rule'] column
    hidden. *)
Definition store_foo : IndexStore.t :=
  IndexStore.set_keywords "foo"
    (IndexStore.set_filtersColumn
       {| FiltersColumn.Columns :=
            <["Rule" := hidden]> (FiltersColumn.Columns filtersColumn) |} store0).

(** The store with a column order that names a column that is hidden. *)
Definition store_order : IndexStore.t :=
  IndexStore.setColumnOrder ["Rule"; "Baseline"; "Line"] store0.

(** The store after [log_props] was ingested, with a key word typed in
    upper case. *)
Definition store_search : IndexStore.t :=
  IndexStore.set_keywords "GENERATED" (IndexStore.logs_push true log_props store0).

(** The store with result 0 of the log marked as a true positive. *)
Definition store_triaged : IndexStore.t :=
  IndexStore.setResultStatus (ResultTableStore.id_key result1) true_positive store0.

(** An entry of [added] whose text does not parse, and one without text,
    to be fetched from the web view. *)
Definition added_bad : Added.t :=
  {| Added.text := Some "{"; Added.uri := "file:///bad.sarif";
     Added.uriUpgraded := None; Added.webviewUri := None |}.

Definition added_fetched : Added.t :=
  {| Added.text := None; Added.uri := "file:///fetched.sarif";
     Added.uriUpgraded := None; Added.webviewUri := Some webviewUri |}.

(** The ['Status'] column. *)
Definition column_Status (src : IndexStore.t) : Column.t :=
  default {| Column.oid := 0; Column.name := EmptyString; Column.width := 0;
             Column.toString := fun _ => EmptyString; Column.toNumber := None |}
    (ResultTableStore.columnsOptional src !! 2%nat).

End Sample.

Import (hints) Sample.

(* ===================================================================== *)
(** * 7. Notions of the statements *)
(* ===================================================================== *)

Module Notions.
Import IndexStore.

Section Statements.
Context `{Js.Engine} `{IndexStore.Imports}.

(** The fields that a reaction of the selection never writes. *)
Definition same_but_posted (s s' : t) : Prop :=
  selection s' = selection s
  ∧ logs s' = logs s
  ∧ dynamicColumns s' = dynamicColumns s
  ∧ filtersColumn s' = filtersColumn s
  ∧ filtersRow s' = filtersRow s
  ∧ resultStatuses s' = resultStatuses s.

(** The flag that [filtersColumn.Columns] has for [key], as a property of
    its own. *)
Definition column_flag (s : t) (key : string) : option Visibility :=
  FiltersColumn.Columns (filtersColumn s) !! key.

(** Some result of the log has the property [key]. *)
Definition has_property_key (log : Log.t) (key : string) : Prop :=
  ∃ runs run results result,
    Log.runs log = Some runs ∧ run ∈ runs
    ∧ Run.results run = Some results ∧ result ∈ results
    ∧ key ∈ Object_keys result.

(** How a discovery of dynamic columns relates the store before and the
    store after: the dynamic columns only grow, stay free of duplicates and
    of ['tags']; a flag that existed is kept; a key that became a dynamic
    column without a flag has the flag [false], unless it names a member of
    [Object.prototype]; the flag of such a name, and of a key that is no
    dynamic column, is what it was. *)
Definition discovered (s s' : t) : Prop :=
  (∀ key, key ∈ dynamicColumns s → key ∈ dynamicColumns s')
  ∧ (NoDup (dynamicColumns s) → NoDup (dynamicColumns s'))
  ∧ ("tags" ∉ dynamicColumns s → "tags" ∉ dynamicColumns s')
  ∧ (∀ key flag, column_flag s key = Some flag → column_flag s' key = Some flag)
  ∧ (∀ key, key ∈ dynamicColumns s' → key ∉ dynamicColumns s →
            column_flag s key = None → Js.inherited key = false →
            column_flag s' key = Some hidden)
  ∧ (∀ key, key ∉ dynamicColumns s' → column_flag s' key = column_flag s key)
  ∧ (∀ key, Js.inherited key = true → column_flag s' key = column_flag s key).

(** The keys for which a discovery over [log] writes a new flag, in the
    order of the discovery: the property keys of the log that are no
    dynamic column yet, have no flag and name no member of
    [Object.prototype]. *)
Definition seeded (s : t) (log : Log.t) : list string :=
  List.filter
    (fun key => negb (bool_decide (key ∈ dynamicColumns s))
                && negb (bool_decide (is_Some (column_flag s key)))
                && negb (Js.inherited key))
    (propertyKeys log).

(** The message is a ['setState']. *)
Definition is_setState (m : Post.t) : bool :=
  match m with Post.setState => true | _ => false end.

(** [keyword] occurs in [field]. *)
Definition substring (keyword field : string) : Prop :=
  ∃ before after, field = before +:+ keyword +:+ after.

(** [value] is the lower-cased label of an entry of [record] whose flag is
    ['visible']. *)
Definition label_visible (record : gmap string Visibility) (value : string) : Prop :=
  ∃ label, record !! label = Some visible ∧ Js.toLowerCase label = value.

(** Some key word of the filter occurs in the lower-cased text that some
    column of [cols] renders for the result. *)
Definition keyword_in_column (src : t) (cols : list Column.t) (result : Result.t) : Prop :=
  ∃ col keyword,
    col ∈ cols ∧ keyword ∈ ResultTableStore.filterKeywords src
    ∧ substring keyword (Js.toLowerCase (Column.toString col result)).

(** The three row filters let the result through: the store has the three
    categories, and the level, the baseline state and the suppression state
    of the result (the empty string where the result has none) are each a
    visible label. *)
Definition passes_row_filters (src : t) (result : Result.t) : Prop :=
  ∃ Level Baseline Suppression,
    filtersRow src !! "Level" = Some Level
    ∧ filtersRow src !! "Baseline" = Some Baseline
    ∧ filtersRow src !! "Suppression" = Some Suppression
    ∧ label_visible Level (default EmptyString (Result.level result))
    ∧ label_visible Baseline (default EmptyString (Result.baselineState result))
    ∧ label_visible Suppression (default EmptyString (Result._suppression result)).

(** The filter as the spec words it: the key words are looked for in the
    visible columns of the store. *)
Definition passes_on_visible_columns (ts : ResultTableStore.t) (src : t)
    (result : Result.t) : Prop :=
  passes_row_filters src result
  ∧ (ResultTableStore.filterKeywords src = []
     ∨ keyword_in_column src (ResultTableStore.visibleColumns ts src) result).

(** The filter of the code: the key words are looked for in all the
    columns of the store, visible or not. *)
Definition passes_on_all_columns (src : t) (result : Result.t) : Prop :=
  passes_row_filters src result
  ∧ (ResultTableStore.filterKeywords src = []
     ∨ keyword_in_column src (ResultTableStore.columns src) result).

(** The row filters as the spec words the invariant: every value of every
    category of the defaults has an entry in the store. *)
Definition row_filters_cover_defaults (s : t) : Prop :=
  ∀ category values value flag,
    shared_filtersRow !! category = Some values →
    values !! value = Some flag →
    ∃ stored, filtersRow s !! category = Some stored ∧ is_Some (stored !! value).

(** [state.filtersColumn?.Columns] of a persisted blob, empty when
    missing. *)
Definition persisted_columns (state : gmap string (gmap string (gmap string Visibility)))
    : gmap string Visibility :=
  default ∅ (state !! "filtersColumn" ≫= fun fc => fc !! "Columns").

(** The results of the runs of one log, in order. *)
Definition log_results (log : Log.t) : list Result.t :=
  concat (List.map (fun run => default [] (Run.results run)) (default [] (Log.runs log))).

(** [parsed a]: the log that [onMessage] reads for the entry [a] of
    [added], from its text or from the web view. *)
Definition parsed (a : Added.t) : option Log.t :=
  if IndexStore.present (Added.text a)
  then IndexStore.JSON_parse (default EmptyString (Added.text a))
  else IndexStore.fetch_json (Added.webviewUri a).

(** The log that [onMessage] pushes for the entry [a]: the log read, under
    the uri and the upgraded uri of the entry. *)
Definition entry_log (a : Added.t) : option Log.t :=
  (fun log => {| Log._uri := Added.uri a;
                 Log._uriUpgraded := Added.uriUpgraded a;
                 Log.runs := Log.runs log |}) <$> parsed a.

(** What becomes of logs that are augmented one after the other, the rules
    without driver that one augmentation finds being handed to the next. *)
Fixpoint augmented (rules : list (string * ReportingDescriptor.t))
    (workspaceUri : option string) (pushed : list Log.t) : list Log.t :=
  match pushed with
  | [] => []
  | log :: rest =>
      fst (augmentLog log rules workspaceUri)
      :: augmented (snd (augmentLog log rules workspaceUri)) workspaceUri rest
  end.

(** The logs that the entries [added] of a ['spliceLogs'] message put into
    the store [s], in the order of the message. *)
Definition stored (s : t) (added : list Added.t) : list Log.t :=
  augmented (driverlessRules s) (workspaceUri s) (omap entry_log added).

(** A ['spliceLogs'] message and the other messages, without the markers of
    the development tools. *)
Definition message (command : Command.t) : option EventData.t :=
  Some {| EventData.source := None; EventData.type_ := None;
          EventData.command := Some command |}.

(** The store [s] with the flag of [value] in [category] set to [flag],
    for a category that the row filters have. *)
Definition with_row_flag (category value : string) (flag : Visibility)
    (s : IndexStore.t) : IndexStore.t :=
  IndexStore.set_filtersRow
    (alter (fun values : gmap string Visibility => <[value := flag]> values)
       category (IndexStore.filtersRow s)) s.

(** [value] is the lower-cased label of an entry of [record], whatever its
    flag. *)
Definition label_known (record : gmap string Visibility) (value : string) : Prop :=
  ∃ label, is_Some (record !! label) ∧ Js.toLowerCase label = value.

(** The selection box holds the row object [row]. *)
Definition selected (row : Row) (s : t) : Prop :=
  ∃ held, selection s = Some held ∧ Row_is held row = true.

End Statements.

(** The value of a hexadecimal digit in lower case. *)
Definition hex_value (c : ascii) : nat :=
  let n := nat_of_ascii c in
  if (n <? 58)%nat then (n - 48)%nat else (n - 87)%nat.

(** The character that an escape at the head of a JSON string body stands
    for, and what follows it. *)
Definition unescape_head (s : string) : option (ascii * string) :=
  match s with
  | String c rest =>
      if (nat_of_ascii c =? 92)%nat then
        match rest with
        | String e rest' =>
            let n := nat_of_ascii e in
            if (n =? 34)%nat then Some (ascii_of_nat 34, rest')
            else if (n =? 92)%nat then Some (ascii_of_nat 92, rest')
            else if (n =? 98)%nat then Some (ascii_of_nat 8, rest')
            else if (n =? 102)%nat then Some (ascii_of_nat 12, rest')
            else if (n =? 110)%nat then Some (ascii_of_nat 10, rest')
            else if (n =? 114)%nat then Some (ascii_of_nat 13, rest')
            else if (n =? 116)%nat then Some (ascii_of_nat 9, rest')
            else match rest' with
                 | String _ (String _ (String h (String l rest''))) =>
                     Some (ascii_of_nat (16 * hex_value h + hex_value l), rest'')
                 | _ => None
                 end
        | EmptyString => None
        end
      else Some (c, rest)
  | EmptyString => None
  end.

(** The string has the character [d]. *)
Fixpoint has_char (d : ascii) (s : string) : bool :=
  match s with
  | EmptyString => false
  | String c rest => Ascii.eqb c d || has_char d rest
  end.

End Notions.

(* ===================================================================== *)
(** * 8. Properties *)
(* ===================================================================== *)

(** ** What the reactions leave alone *)

Section Frames.
Context `{IndexStore.Imports}.
Import IndexStore Notions.

Lemma postSelectArtifact_frame active result ploc s :
  same_but_posted s (postSelectArtifact active result ploc s).
Proof.
  unfold postSelectArtifact, same_but_posted.
  destruct active; simpl; [| tauto].
  destruct ploc as [p|]; [| tauto].
  destruct (parseArtifactLocation result (PhysicalLocation.artifactLocation p)) as [[? ?] ?].
  simpl. tauto.
Qed.

Lemma autorun_selection_frame active s :
  same_but_posted s (autorun_selection active s).
Proof.
  unfold autorun_selection.
  destruct (selection s) as [[k g e | k result]|] eqn:E;
    try (unfold same_but_posted; tauto).
  destruct (has_uri result); simpl.
  - apply postSelectArtifact_frame.
  - unfold same_but_posted; tauto.
Qed.

Lemma selection_autorun active s :
  selection (autorun_selection active s) = selection s.
Proof. apply autorun_selection_frame. Qed.

Lemma logs_autorun active s :
  logs (autorun_selection active s) = logs s.
Proof. apply autorun_selection_frame. Qed.

Lemma selection_is_None (o : option Row) :
  selection_is o None = true → o = None.
Proof. destruct o; simpl; congruence. Qed.

(** After [selection.set(undefined)] the box is empty. *)
Lemma selection_set_None active s :
  selection (selection_set active None s) = None.
Proof.
  unfold selection_set.
  destruct (selection_is (selection s) None) eqn:E.
  - by apply selection_is_None.
  - by rewrite selection_autorun.
Qed.

Lemma logs_selection_set active row s :
  logs (selection_set active row s) = logs s.
Proof.
  unfold selection_set.
  destruct (selection_is (selection s) row); [done |].
  by rewrite logs_autorun.
Qed.

(** Setting a row that is not the selected one stores it. *)
Lemma selection_set_changed active row s :
  selection_is (selection s) row = false →
  selection (selection_set active row s) = row.
Proof.
  intros E. unfold selection_set. rewrite E.
  by rewrite selection_autorun.
Qed.

(** Clearing the selection posts nothing. *)
Lemma posted_selection_set_None active s :
  posted (selection_set active None s) = posted s.
Proof.
  unfold selection_set.
  destruct (selection_is (selection s) None); [done |].
  reflexivity.
Qed.


Lemma Row_is_refl row : Row_is row row = true.
Proof. destruct row; simpl; apply Nat.eqb_refl. Qed.


End Frames.

(** ** Triage status *)

Section Triage.
Context `{IndexStore.Imports}.
Import IndexStore.

(** C9. For every result identity and status, [setResultStatus(id, status)]
    updates the triage map so that [getResultStatus(id)] then returns that
    status, leaves the status of every other identity as it was, and posts
    exactly one message, [setResultStatus] with that identity and status,
    after the messages posted before; [getResultStatus] returns
    ['unchecked'] for an identity that the map does not have. *)
Theorem setResultStatus_then_getResultStatus
    (resultId : string) (status : ResultStatus) (s : t) :
  getResultStatus resultId (setResultStatus resultId status s) = status
  ∧ posted (setResultStatus resultId status s)
    = posted s ++ [Post.setResultStatus resultId status]
  ∧ (∀ other, other ≠ resultId →
       getResultStatus other (setResultStatus resultId status s)
       = getResultStatus other s)
  ∧ (∀ absent, resultStatuses s !! absent = None →
       getResultStatus absent s = unchecked).
Proof.
  repeat split.
  - unfold getResultStatus, setResultStatus. simpl.
    by rewrite lookup_insert_eq.
  - intros other Hne. unfold getResultStatus, setResultStatus. simpl.
    by rewrite lookup_insert_ne.
  - intros absent Habsent. unfold getResultStatus. by rewrite Habsent.
Qed.

End Triage.

(** The scenario of the spec: result 2 marked false positive. *)
Lemma setResultStatus_then_getResultStatus_witness :
  IndexStore.getResultStatus "2"
    (IndexStore.setResultStatus "2" false_positive Sample.store0) = false_positive
  ∧ IndexStore.posted (IndexStore.setResultStatus "2" false_positive Sample.store0)
    = [Post.setResultStatus "2" false_positive]
  ∧ IndexStore.getResultStatus "7" Sample.store0 = unchecked.
Proof.
  destruct (setResultStatus_then_getResultStatus "2" false_positive Sample.store0)
    as (Hget & Hpost & _ & Habsent).
  split; [exact Hget |].
  split; [exact Hpost |].
  apply Habsent. reflexivity.
Defined.

(** ** Keys of the table *)

Section Keys.
Context `{IndexStore.Imports}.
Import IndexStore Table.

Lemma indexOf_from_unselected rows i :
  indexOf_from rows None i = (-1)%Z.
Proof. revert i. induction rows as [| row rest IH]; intros i; simpl; [done | apply IH]. Qed.

(** C10. With no row selected, [ArrowDown] on a table that renders at
    least one row selects the first rendered row, as [ArrowUp] does: the
    event is handled, the selection box then holds the first row, and both
    keys leave the store in the same state. *)
Theorem ArrowDown_without_selection_selects_first
    (active : bool) (first : Row) (rest : list Row) (s : t) :
  selection s = None →
  onKeyDown active "ArrowDown" (first :: rest) s
  = (true, selection_set active (Some first) s)
  ∧ selection (snd (onKeyDown active "ArrowDown" (first :: rest) s)) = Some first
  ∧ onKeyDown active "ArrowUp" (first :: rest) s
    = onKeyDown active "ArrowDown" (first :: rest) s.
Proof.
  intros Hnone.
  assert (Hdown : onKeyDown active "ArrowDown" (first :: rest) s
                  = (true, selection_set active (Some first) s)).
  { unfold onKeyDown, indexOf. rewrite Hnone, indexOf_from_unselected. reflexivity. }
  split; [exact Hdown |]. split.
  - rewrite Hdown. simpl. apply selection_set_changed. by rewrite Hnone.
  - rewrite Hdown. unfold onKeyDown, indexOf.
    rewrite Hnone, indexOf_from_unselected. reflexivity.
Qed.

End Keys.

(** A table of one group and its item, nothing selected. *)
Lemma ArrowDown_without_selection_selects_first_witness :
  IndexStore.selection Sample.store0 = None
  ∧ IndexStore.selection
      (snd (Table.onKeyDown true "ArrowDown" [Sample.group1; Sample.row1] Sample.store0))
    = Some Sample.group1.
Proof.
  split; [reflexivity |].
  apply (ArrowDown_without_selection_selects_first true Sample.group1 [Sample.row1]
           Sample.store0).
  reflexivity.
Defined.

(** ** The list of logs and the selection *)

Section Logs.
Context `{IndexStore.Imports}.
Import IndexStore.

Lemma logs_observer_logs active s :
  logs (logs_observer active s) = logs s.
Proof.
  unfold logs_observer. destruct (logs s) eqn:E; [| done].
  by rewrite logs_selection_set.
Qed.

(** The observer of [logs] leaves no selection on an empty list. *)
Lemma logs_observer_clears active s :
  logs (logs_observer active s) = [] → selection (logs_observer active s) = None.
Proof.
  rewrite logs_observer_logs. intros Hempty.
  unfold logs_observer. rewrite Hempty. apply selection_set_None.
Qed.

Lemma logs_push_nonempty active log s :
  logs (logs_push active log s) ≠ [].
Proof.
  unfold logs_push. destruct (logs_intercept_added log s) as [log' s1].
  rewrite logs_observer_logs. simpl. by destruct (logs s1).
Qed.

Lemma remove_log_clears active s uri :
  (logs s = [] → selection s = None) →
  logs (remove_log active s uri) = [] → selection (remove_log active s uri) = None.
Proof.
  intros Hinv. unfold remove_log.
  destruct (findIndex uri (logs s)) as [i |]; [| exact Hinv].
  unfold logs_splice. destruct (i <? length (logs s))%nat; [| exact Hinv].
  apply logs_observer_clears.
Qed.

Lemma remove_logs_clear active removed : ∀ s,
  (logs s = [] → selection s = None) →
  logs (foldl (remove_log active) s removed) = [] →
  selection (foldl (remove_log active) s removed) = None.
Proof.
  induction removed as [| uri rest IH]; intros s Hinv; simpl; [exact Hinv |].
  apply IH. by apply remove_log_clears.
Qed.

Lemma add_log_clears active a acc :
  (logs (outcome_state acc) = [] → selection (outcome_state acc) = None) →
  logs (outcome_state (add_log active acc a)) = [] →
  selection (outcome_state (add_log active acc a)) = None.
Proof.
  intros Hinv. unfold add_log.
  destruct acc as [s | e s]; [| exact Hinv].
  destruct (if present (Added.text a) then _ else _) as [log |]; simpl; [| exact Hinv].
  intros Hempty. by apply logs_push_nonempty in Hempty.
Qed.

Lemma add_logs_clear active added : ∀ acc,
  (logs (outcome_state acc) = [] → selection (outcome_state acc) = None) →
  logs (outcome_state (foldl (add_log active) acc added)) = [] →
  selection (outcome_state (foldl (add_log active) acc added)) = None.
Proof.
  induction added as [| a rest IH]; intros acc Hinv; simpl; [exact Hinv |].
  apply IH. by apply add_log_clears.
Qed.

(** C8. Whatever the selection was (an item row, a group row or none), a
    mutation of the list of logs that leaves it empty leaves the selection
    cleared: so for [logs.splice(i, 1)], for [logs.push(log)] (which never
    leaves the list empty), and for a whole ['spliceLogs'] message handled
    from a store where an empty list had no selection, whether the handler
    returns or throws on a log that does not parse. *)
Theorem empty_logs_clear_selection (active : bool) (s : t) :
  (∀ i, (i < length (logs s))%nat →
        logs (logs_splice active i s) = [] →
        selection (logs_splice active i s) = None)
  ∧ (∀ log, logs (logs_push active log s) = [] →
            selection (logs_push active log s) = None)
  ∧ (∀ removed added,
       (logs s = [] → selection s = None) →
       let s' := outcome_state
                   (onMessage active
                      (Some {| EventData.source := None; EventData.type_ := None;
                               EventData.command := Some (Command.spliceLogs removed added) |})
                      s) in
       logs s' = [] → selection s' = None).
Proof.
  split; [| split].
  - intros i Hi. unfold logs_splice.
    apply Nat.ltb_lt in Hi. rewrite Hi. apply logs_observer_clears.
  - intros log Hempty. by apply logs_push_nonempty in Hempty.
  - intros removed added Hinv. simpl.
    apply add_logs_clear. simpl. by apply remove_logs_clear.
Qed.

End Logs.

(** The last log is removed while an item row, or a group row, is
    selected. *)
Lemma empty_logs_clear_selection_witness :
  IndexStore.selection (Sample.store_selected Sample.row1) = Some Sample.row1
  ∧ IndexStore.selection
      (IndexStore.logs_splice true 0 (Sample.store_selected Sample.row1)) = None
  ∧ IndexStore.selection
      (outcome_state
         (IndexStore.onMessage false
            (Some {| EventData.source := None; EventData.type_ := None;
                     EventData.command :=
                       Some (Command.spliceLogs ["file:///log.sarif"] []) |})
            (Sample.store_selected Sample.group1))) = None.
Proof.
  split; [reflexivity |].
  split.
  - apply (empty_logs_clear_selection true (Sample.store_selected Sample.row1)).
    + simpl. lia.
    + reflexivity.
  - apply (empty_logs_clear_selection false (Sample.store_selected Sample.group1)).
    + simpl. discriminate.
    + reflexivity.
Defined.

(** ** The selection and the extension *)

Section Selection.
Context `{IndexStore.Imports}.
Import IndexStore Notions.

Lemma app_one_not_self {A : Type} (l : list A) (x : A) : l ≠ l ++ [x].
Proof.
  intros E. apply (f_equal length) in E. rewrite length_app in E. simpl in E. lia.
Qed.

(** What [postSelectArtifact] posts when the panel is active and the
    result has a physical location. *)
Lemma postSelectArtifact_posts result p s :
  ∃ payload,
    posted (postSelectArtifact true result (Some p) s) = posted s ++ [Post.select payload]
    ∧ Post.id payload = Result._id result
    ∧ Post.logUri payload = Result._log_uri result
    ∧ Post.region payload = PhysicalLocation.region p.
Proof.
  unfold postSelectArtifact. simpl.
  destruct (parseArtifactLocation result (PhysicalLocation.artifactLocation p)) as [[u b] c].
  eexists. split; [reflexivity |]. simpl. done.
Qed.

(** The posts of the [autorun]: one ['select'], for the selected item,
    when all four conditions hold, and none otherwise. *)
Lemma autorun_selection_posted active s :
  (∃ key result p payload,
      selection s = Some (RowItem key result)
      ∧ has_uri result = true
      ∧ first_physicalLocation result = Some p
      ∧ active = true
      ∧ posted (autorun_selection active s) = posted s ++ [Post.select payload]
      ∧ Post.id payload = Result._id result
      ∧ Post.logUri payload = Result._log_uri result)
  ∨ (posted (autorun_selection active s) = posted s
     ∧ ¬ (∃ key result p,
            selection s = Some (RowItem key result)
            ∧ has_uri result = true
            ∧ first_physicalLocation result = Some p
            ∧ active = true)).
Proof.
  unfold autorun_selection.
  destruct (selection s) as [[k g e | k result] |] eqn:Hsel.
  - right. split; [done |]. intros (? & ? & ? & ? & _). discriminate.
  - destruct (has_uri result) eqn:Huri; simpl.
    + destruct (first_physicalLocation result) as [p |] eqn:Hploc.
      * destruct active.
        -- left. destruct (postSelectArtifact_posts result p s) as (payload & Hp & Hid & Hlog & _).
           exists k, result, p, payload. done.
        -- right. split; [done |]. intros (? & ? & ? & _ & _ & _ & ?). discriminate.
      * right. split.
        -- unfold postSelectArtifact. by destruct active.
        -- intros (? & ? & ? & E & _ & ? & _). congruence.
    + right. split; [done |]. intros (? & ? & ? & E & ? & _). congruence.
  - right. split; [done |]. intros (? & ? & ? & ? & _). discriminate.
Qed.

(** C6. For every change of the selection and every activity of the panel,
    an outbound ['select'] is posted if and only if the row now selected is
    an item whose result has a uri and a first physical location and the
    panel is active; the message then carries the identity and the log of
    that result.  Otherwise nothing is posted: in particular nothing is
    posted by a panel that is not active, and nothing when the box is given
    the row it already holds. *)
Theorem outbound_select_iff_located_item_and_active
    (active : bool) (row : option Row) (s : t) :
  (selection_is (selection s) row = false →
     ((∃ payload, posted (selection_set active row s) = posted s ++ [Post.select payload])
      ↔ (∃ key result p,
            row = Some (RowItem key result)
            ∧ has_uri result = true
            ∧ first_physicalLocation result = Some p
            ∧ active = true))
     ∧ (∀ key result p,
          row = Some (RowItem key result) → has_uri result = true →
          first_physicalLocation result = Some p → active = true →
          ∃ payload,
            posted (selection_set active row s) = posted s ++ [Post.select payload]
            ∧ Post.id payload = Result._id result
            ∧ Post.logUri payload = Result._log_uri result)
     ∧ (posted (selection_set active row s) = posted s
        ∨ ∃ payload, posted (selection_set active row s) = posted s ++ [Post.select payload]))
  ∧ (active = false → posted (selection_set active row s) = posted s)
  ∧ (selection_is (selection s) row = true → selection_set active row s = s).
Proof.
  split; [| split].
  - intros Hchanged. unfold selection_set. rewrite Hchanged.
    destruct (autorun_selection_posted active (set_selection row s))
      as [(k & r & p & payload & Hsel & Huri & Hploc & Hact & Hpost & Hid & Hlog)
         | [Hpost Hnot]]; simpl in *.
    + split; [| split].
      * split; [| by eauto]. intros _. exists k, r, p. done.
      * intros k' r' p' Hrow _ _ _. exists payload.
        rewrite Hsel in Hrow. injection Hrow as -> ->. done.
      * right. by eauto.
    + split; [| split].
      * split.
        -- intros [payload Hp]. rewrite Hpost in Hp. by apply app_one_not_self in Hp.
        -- intros Hcond. by destruct Hnot.
      * intros k r p Hrow Huri Hploc Hact. destruct Hnot. by exists k, r, p.
      * by left.
  - intros ->. unfold selection_set.
    destruct (selection_is (selection s) row); [done |].
    destruct (autorun_selection_posted false (set_selection row s))
      as [(? & ? & ? & ? & _ & _ & _ & Hact & _) | [Hpost _]]; [discriminate | exact Hpost].
  - intros Hsame. unfold selection_set. by rewrite Hsame.
Qed.


End Selection.

(** A click on an item row in the active panel, and the same selection
    applied while the editor has the focus. *)
Lemma outbound_select_iff_located_item_and_active_witness :
  (∃ payload,
      IndexStore.posted (IndexStore.selection_set true (Some Sample.row1) Sample.store0)
      = [Post.select payload]
      ∧ Post.id payload = ("file:///log.sarif", 0%Z, 0%Z))
  ∧ IndexStore.posted (IndexStore.selection_set false (Some Sample.row1) Sample.store0) = []
  ∧ IndexStore.posted (IndexStore.selection_set true (Some Sample.row2) Sample.store0) = []
  ∧ IndexStore.posted (IndexStore.selection_set true (Some Sample.group1) Sample.store0) = [].
Proof.
  split; [| split; [| split]].
  - destruct (outbound_select_iff_located_item_and_active true (Some Sample.row1) Sample.store0)
      as [Hchanged _].
    destruct (Hchanged eq_refl) as (_ & Hpayload & _).
    destruct (Hpayload 0%nat Sample.result1 _ eq_refl eq_refl eq_refl eq_refl)
      as (payload & Hposted & Hid & _).
    exists payload. split; [exact Hposted | exact Hid].
  - apply (outbound_select_iff_located_item_and_active false (Some Sample.row1) Sample.store0).
    reflexivity.
  - reflexivity.
  - reflexivity.
Defined.



(** ** Discovery of the dynamic columns *)

Section Discovery.
Context `{IndexStore.Imports}.
Import IndexStore Notions.

Lemma Set_add_elem keys key x :
  x ∈ Set_add keys key ↔ x ∈ keys ∨ x = key.
Proof.
  unfold Set_add. case_bool_decide as Hin.
  - split; [by left | intros [? | ->]; done].
  - rewrite elem_of_app, list_elem_of_singleton. done.
Qed.

Lemma keys_fold_elem ks : ∀ acc x,
  x ∈ foldl (fun keys key =>
               if negb (String.eqb key "tags") then Set_add keys key else keys) acc ks
  ↔ x ∈ acc ∨ (x ∈ ks ∧ x ≠ "tags").
Proof.
  induction ks as [| k rest IH]; intros acc x; simpl.
  - split; [by left | intros [? | [Hx _]]; [done | by apply elem_of_nil in Hx]].
  - rewrite IH. destruct (String.eqb_spec k "tags") as [-> | Hk]; simpl.
    + rewrite elem_of_cons. split; [intros [? | [? ?]]; auto | intros [? | [[-> | ?] ?]]; auto].
      done.
    + rewrite Set_add_elem, elem_of_cons.
      split; [intros [[? | ->] | [? ?]]; auto | intros [? | [[-> | ?] ?]]; auto].
Qed.

Lemma results_fold_elem results : ∀ acc x,
  x ∈ foldl (fun keys result =>
               foldl (fun keys key =>
                        if negb (String.eqb key "tags") then Set_add keys key else keys)
                     keys (Object_keys result)) acc results
  ↔ x ∈ acc ∨ (x ≠ "tags" ∧ ∃ result, result ∈ results ∧ x ∈ Object_keys result).
Proof.
  induction results as [| r rest IH]; intros acc x; simpl.
  - split; [by left | intros [? | [_ (? & Hr & _)]]; [done | by apply elem_of_nil in Hr]].
  - rewrite IH, keys_fold_elem. split.
    + intros [[? | [? ?]] | [? (r' & ? & ?)]]; auto.
      * right. split; [done |]. exists r. split; [apply list_elem_of_here | done].
      * right. split; [done |]. exists r'. split; [by apply list_elem_of_further | done].
    + intros [? | [? (r' & Hr' & ?)]]; auto.
      apply elem_of_cons in Hr' as [-> | ?]; [by left; right | right; eauto].
Qed.

Lemma runs_fold_elem runs : ∀ acc x,
  x ∈ foldl (fun keys run =>
               foldl (fun keys result =>
                        foldl (fun keys key =>
                                 if negb (String.eqb key "tags") then Set_add keys key else keys)
                              keys (Object_keys result))
                     keys (default [] (Run.results run))) acc runs
  ↔ x ∈ acc ∨ (x ≠ "tags" ∧ ∃ run results result,
                  run ∈ runs ∧ Run.results run = Some results
                  ∧ result ∈ results ∧ x ∈ Object_keys result).
Proof.
  induction runs as [| r rest IH]; intros acc x; simpl.
  - split; [by left | intros [? | [_ (? & ? & ? & Hr & _)]]; [done | by apply elem_of_nil in Hr]].
  - rewrite IH, results_fold_elem. split.
    + intros [[? | [? (res & Hres & ?)]] | [? (r' & rs & res & ? & ? & ? & ?)]]; auto.
      * right. split; [done |].
        destruct (Run.results r) as [rs |] eqn:Ers; simpl in Hres;
          [| by apply elem_of_nil in Hres].
        exists r, rs, res. split; [apply list_elem_of_here | done].
      * right. split; [done |]. exists r', rs, res.
        split; [by apply list_elem_of_further | done].
    + intros [? | [? (r' & rs & res & Hr' & Ers & ? & ?)]]; auto.
      apply elem_of_cons in Hr' as [-> | ?].
      * left. right. split; [done |]. exists res. rewrite Ers. done.
      * right. split; [done |]. exists r', rs, res. done.
Qed.

(** The keys that [extractDynamicColumns] collects: the property keys of
    the results of the log, but ['tags']. *)
Lemma propertyKeys_elem log key :
  key ∈ propertyKeys log ↔ has_property_key log key ∧ key ≠ "tags".
Proof.
  unfold propertyKeys, has_property_key. rewrite runs_fold_elem. split.
  - intros [Hnil | [Hne (run & rs & res & Hrun & ? & ? & ?)]];
      [by apply elem_of_nil in Hnil |].
    split; [| done].
    destruct (Log.runs log) as [runs |]; simpl in Hrun; [| by apply elem_of_nil in Hrun].
    exists runs, run, rs, res. done.
  - intros [(runs & run & rs & res & Eruns & ? & ? & ? & ?) Hne].
    right. split; [done |]. exists run, rs, res. rewrite Eruns. done.
Qed.

Lemma discovered_refl s : discovered s s.
Proof. unfold discovered. repeat split; try done; intros; exfalso; auto. Qed.

Lemma discovered_trans s1 s2 s3 :
  discovered s1 s2 → discovered s2 s3 → discovered s1 s3.
Proof.
  intros (M1 & N1 & T1 & K1 & S1 & U1 & P1) (M2 & N2 & T2 & K2 & S2 & U2 & P2).
  unfold discovered. repeat split; auto.
  - intros key Hin3 Hnot1 Hnone Hown.
    destruct (decide (key ∈ dynamicColumns s2)) as [Hin2 | Hnot2].
    + apply K2. by apply S1.
    + apply S2; [done | done | | done]. rewrite U1; done.
  - intros key Hnot3.
    assert (key ∉ dynamicColumns s2) as Hnot2 by (intros ?; apply Hnot3; auto).
    rewrite U2, U1; done.
  - intros key Hinherited. rewrite P2, P1; done.
Qed.

Lemma register_key_discovered s key :
  key ≠ "tags" → discovered s (register_key s key).
Proof.
  intros Hne. unfold register_key. case_bool_decide as Hin; [apply discovered_refl |].
  assert (∀ s', dynamicColumns s' = dynamicColumns s ++ [key] →
                (∀ k, k ≠ key → column_flag s' k = column_flag s k) →
                column_flag s' key
                = match column_flag s key with
                  | Some flag => Some flag
                  | None => if Js.inherited key then None else Some hidden
                  end →
                discovered s s') as Hgen.
  { intros s' Hdyn Hother Hkey. unfold discovered. rewrite Hdyn. repeat split.
    - intros k ?. apply elem_of_app. by left.
    - intros Hnd. apply NoDup_app. repeat split; [done | | apply NoDup_singleton].
      intros k Hk ->%list_elem_of_singleton. done.
    - intros Htags [? | Hk%list_elem_of_singleton]%elem_of_app; [done | congruence].
    - intros k flag Hflag. destruct (decide (k = key)) as [-> | Hk].
      + by rewrite Hkey, Hflag.
      + by rewrite Hother.
    - intros k [? | ->%list_elem_of_singleton]%elem_of_app Hnot Hnone Hown; [done |].
      by rewrite Hkey, Hnone, Hown.
    - intros k Hnot. apply Hother. intros ->. apply Hnot, elem_of_app. right.
      by apply list_elem_of_singleton.
    - intros k Hinherited. destruct (decide (k = key)) as [-> | Hk]; [| by apply Hother].
      rewrite Hkey, Hinherited. by destruct (column_flag s key). }
  cbn zeta. destruct (FiltersColumn.Columns (filtersColumn _) !! key) as [[] |] eqn:Hflag;
    simpl in Hflag.
  - apply Hgen; unfold column_flag; simpl; [done | done | by rewrite Hflag].
  - apply Hgen; unfold column_flag; simpl; [done | |].
    + intros k Hk. by rewrite lookup_insert_ne.
    + by rewrite lookup_insert_eq, Hflag.
  - destruct (Js.inherited key) eqn:Hinherited.
    + apply Hgen; unfold column_flag; simpl; [done | done |].
      by rewrite Hflag.
    + apply Hgen; unfold column_flag; simpl; [done | |].
      * intros k Hk. by rewrite lookup_insert_ne.
      * by rewrite lookup_insert_eq, Hflag.
Qed.

Lemma register_keys_discovered ks : ∀ s,
  "tags" ∉ ks → discovered s (foldl register_key s ks).
Proof.
  induction ks as [| k rest IH]; intros s Hks; simpl; [apply discovered_refl |].
  apply not_elem_of_cons in Hks as [Hk Hrest].
  eapply discovered_trans; [apply register_key_discovered; done | by apply IH].
Qed.

Lemma register_key_elem s key x :
  x ∈ dynamicColumns (register_key s key) ↔ x ∈ dynamicColumns s ∨ x = key.
Proof.
  unfold register_key. case_bool_decide as Hin.
  - split; [by left | intros [? | ->]; done].
  - cbn zeta. destruct (FiltersColumn.Columns _ !! key) as [[] |]; simpl;
      [| | destruct (Js.inherited key); simpl];
      rewrite elem_of_app, list_elem_of_singleton; done.
Qed.

Lemma register_keys_elem ks : ∀ s x,
  x ∈ dynamicColumns (foldl register_key s ks) ↔ x ∈ dynamicColumns s ∨ x ∈ ks.
Proof.
  induction ks as [| k rest IH]; intros s x; simpl.
  - split; [by left | intros [? | Hx]; [done | by apply elem_of_nil in Hx]].
  - rewrite IH, register_key_elem, elem_of_cons. tauto.
Qed.

(** Keys that are dynamic columns already change nothing. *)
Lemma register_keys_known ks : ∀ s,
  (∀ k, k ∈ ks → k ∈ dynamicColumns s) → foldl register_key s ks = s.
Proof.
  induction ks as [| k rest IH]; intros s Hknown; simpl; [done |].
  assert (register_key s k = s) as ->.
  { unfold register_key. rewrite bool_decide_eq_true_2; [done |].
    apply Hknown, list_elem_of_here. }
  apply IH. intros k' Hk'. by apply Hknown, list_elem_of_further.
Qed.

Lemma extractDynamicColumns_discovered log s :
  discovered s (extractDynamicColumns log s).
Proof.
  apply register_keys_discovered. intros Htags%propertyKeys_elem. by destruct Htags.
Qed.

Lemma logs_push_discovered active log s :
  discovered s (logs_push active log s).
Proof.
  unfold logs_push, logs_intercept_added.
  destruct (augmentLog log (driverlessRules s) (workspaceUri s)) as [log' rules].
  pose proof (extractDynamicColumns_discovered log' (set_driverlessRules rules s)) as Hd.
  set (s1 := extractDynamicColumns log' (set_driverlessRules rules s)) in *.
  assert (same_but_posted (set_logs (logs s1 ++ [log']) s1)
            (logs_observer active (set_logs (logs s1 ++ [log']) s1))) as Hframe.
  { unfold logs_observer. simpl. destruct (logs s1); simpl; unfold same_but_posted; tauto. }
  destruct Hframe as (_ & _ & Hdyn & Hcol & _).
  unfold discovered, column_flag in *. rewrite Hdyn, Hcol. simpl in *. exact Hd.
Qed.

(** The dynamic columns after an ingestion: those from before and the
    property keys of the results of the augmented log, but ['tags']. *)
Lemma logs_push_elem active log s key :
  key ∈ dynamicColumns (logs_push active log s)
  ↔ key ∈ dynamicColumns s
    ∨ (has_property_key (fst (augmentLog log (driverlessRules s) (workspaceUri s))) key
       ∧ key ≠ "tags").
Proof.
  unfold logs_push, logs_intercept_added.
  destruct (augmentLog log (driverlessRules s) (workspaceUri s)) as [log' rules].
  set (s1 := extractDynamicColumns log' (set_driverlessRules rules s)).
  assert (dynamicColumns (logs_observer active (set_logs (logs s1 ++ [log']) s1))
          = dynamicColumns s1) as ->.
  { unfold logs_observer. simpl. by destruct (logs s1). }
  subst s1. unfold extractDynamicColumns.
  by rewrite register_keys_elem, propertyKeys_elem.
Qed.

Lemma logs_push_sequence_discovered active ingested : ∀ s,
  discovered s (foldl (fun s log => logs_push active log s) s ingested).
Proof.
  induction ingested as [| log rest IH]; intros s; simpl; [apply discovered_refl |].
  eapply discovered_trans; [apply logs_push_discovered | apply IH].
Qed.

(** C7, on the code.  The discovery of the dynamic columns is idempotent:
    over every sequence of ingested logs, started from a store whose
    dynamic columns are free of duplicates and of ['tags'] (as the new
    store, which has none), no name is a dynamic column twice, ['tags'] is
    none and a flag that a key already has is kept; one ingestion, like
    the discovery that it runs, adds exactly the property keys of the
    results of the log other than ['tags'], and a second discovery over the
    same log changes nothing.
    But a key that became a dynamic column with no flag has the flag
    [false] (hidden) only if it names no member of [Object.prototype]: a
    key such as [constructor] or [toString] is left without any flag. *)
Theorem dynamic_column_discovery_skips_inherited_names
    (active : bool) (ingested : list Log.t) (s : t) :
  NoDup (dynamicColumns s) →
  "tags" ∉ dynamicColumns s →
  let s' := foldl (fun s log => logs_push active log s) s ingested in
  (NoDup (dynamicColumns s')
   ∧ ("tags" ∉ dynamicColumns s')
   ∧ (∀ key flag, column_flag s key = Some flag → column_flag s' key = Some flag)
   ∧ (∀ key, key ∈ dynamicColumns s' → key ∉ dynamicColumns s →
             column_flag s key = None →
             column_flag s' key = if Js.inherited key then None else Some hidden))
  ∧ (∀ log key,
       key ∈ dynamicColumns (logs_push active log s)
       ↔ key ∈ dynamicColumns s
         ∨ (has_property_key
              (fst (augmentLog log (driverlessRules s) (workspaceUri s))) key
            ∧ key ≠ "tags"))
  ∧ (∀ log key,
       key ∈ dynamicColumns (extractDynamicColumns log s)
       ↔ key ∈ dynamicColumns s ∨ (has_property_key log key ∧ key ≠ "tags"))
  ∧ (∀ log,
       extractDynamicColumns log (extractDynamicColumns log s)
       = extractDynamicColumns log s).
Proof.
  intros Hnd Htags s'.
  destruct (logs_push_sequence_discovered active ingested s)
    as (_ & N & T & K & S & _ & P).
  split.
  - split; [by auto |]. split; [by auto |]. split; [exact K |].
    intros key Hin Hnot Hnone. destruct (Js.inherited key) eqn:Hinherited.
    + subst s'. by rewrite P.
    + by apply S.
  - split; [intros log key; apply logs_push_elem |]. split.
    + intros log key. unfold extractDynamicColumns.
      by rewrite register_keys_elem, propertyKeys_elem.
    + intros log. unfold extractDynamicColumns at 1.
      apply register_keys_known. intros k Hk.
      unfold extractDynamicColumns. apply register_keys_elem. by right.
Qed.

End Discovery.

(** A log with the properties [precision] and [constructor], ingested
    twice into the new store. *)
Lemma dynamic_column_discovery_skips_inherited_names_witness :
  IndexStore.dynamicColumns
    (foldl (fun s log => IndexStore.logs_push true log s) Sample.store0
       [Sample.log_constructor; Sample.log_constructor])
  = ["precision"; "constructor"]
  ∧ Notions.column_flag
      (foldl (fun s log => IndexStore.logs_push true log s) Sample.store0
         [Sample.log_constructor; Sample.log_constructor]) "precision"
    = Some hidden
  ∧ Notions.column_flag
      (foldl (fun s log => IndexStore.logs_push true log s) Sample.store0
         [Sample.log_constructor; Sample.log_constructor]) "constructor"
    = None.
Proof.
  split; [reflexivity |].
  destruct (dynamic_column_discovery_skips_inherited_names true
              [Sample.log_constructor; Sample.log_constructor] Sample.store0)
    as [(_ & _ & _ & Hseed) _].
  - apply NoDup_nil_2.
  - apply not_elem_of_nil.
  - split.
    + apply (Hseed "precision").
      * vm_compute. apply list_elem_of_here.
      * apply not_elem_of_nil.
      * reflexivity.
    + apply (Hseed "constructor").
      * vm_compute. apply list_elem_of_further, list_elem_of_here.
      * apply not_elem_of_nil.
      * reflexivity.
Defined.

(** ** The columns of the result table *)

Section Columns.
Context `{Js.Engine}.
Import IndexStore Notions ResultTableStore.

Lemma optionalColumnNames_elem src name :
  name ∈ optionalColumnNames src ↔ column_flag src name = Some visible.
Proof.
  unfold optionalColumnNames, column_flag.
  rewrite list_elem_of_In, in_map_iff. split.
  - intros ([k v] & <- & Hin). apply filter_In in Hin as [Hin Hv]. simpl in *.
    apply list_elem_of_In, elem_of_map_to_list in Hin. by destruct v.
  - intros Hflag. exists (name, visible). split; [done |].
    apply filter_In. split; [| done].
    by apply list_elem_of_In, elem_of_map_to_list.
Qed.

Lemma columnsOptional_oid src c :
  c ∈ columnsOptional src → (Column.oid c < 7)%nat.
Proof.
  unfold columnsOptional. intros Hc.
  repeat (apply elem_of_cons in Hc as [-> | Hc]; [simpl; lia |]).
  by apply elem_of_nil in Hc.
Qed.

Lemma columnsOptional_oid_name src c1 c2 :
  c1 ∈ columnsOptional src → c2 ∈ columnsOptional src →
  Column.oid c1 = Column.oid c2 → c1 = c2.
Proof.
  unfold columnsOptional. intros H1 H2.
  repeat (apply elem_of_cons in H1 as [-> | H1]);
    try (by apply elem_of_nil in H1);
    repeat (apply elem_of_cons in H2 as [-> | H2]);
    try (by apply elem_of_nil in H2); simpl; intros E; done.
Qed.

Lemma dynamicPropertyColumns_elem src c :
  c ∈ dynamicPropertyColumns src →
  ∃ i key, dynamicColumns src !! i = Some key ∧ Column.oid c = (7 + i)%nat
           ∧ c = {| Column.oid := 7 + i; Column.name := key; Column.width := 150;
                    Column.toString := property_text key; Column.toNumber := None |}.
Proof.
  unfold dynamicPropertyColumns. intros (i & key & -> & Hkey)%elem_of_lookup_imap.
  exists i, key. done.
Qed.

Lemma columns_elem src c :
  c ∈ columns src ↔ c ∈ columnsOptional src ∨ c ∈ dynamicPropertyColumns src.
Proof.
  unfold columns, columnsPermanent. rewrite app_nil_l. apply elem_of_app.
Qed.

(** Inside one list of columns the identity tells the column. *)
Lemma columns_oid_inj src c1 c2 :
  c1 ∈ columns src → c2 ∈ columns src → Column.oid c1 = Column.oid c2 → c1 = c2.
Proof.
  intros [H1 | H1]%columns_elem [H2 | H2]%columns_elem E.
  - by eapply columnsOptional_oid_name.
  - apply columnsOptional_oid in H1.
    apply dynamicPropertyColumns_elem in H2 as (i & k & _ & Hoid & _). lia.
  - apply columnsOptional_oid in H2.
    apply dynamicPropertyColumns_elem in H1 as (i & k & _ & Hoid & _). lia.
  - apply dynamicPropertyColumns_elem in H1 as (i1 & k1 & Hk1 & Ho1 & ->).
    apply dynamicPropertyColumns_elem in H2 as (i2 & k2 & Hk2 & Ho2 & ->).
    simpl in E. assert (i1 = i2) as -> by lia. congruence.
Qed.

Lemma unorderedColumns_elem ts src c :
  c ∈ unorderedColumns ts src
  ↔ c ∈ columns src ∧ column_flag src (Column.name c) = Some visible.
Proof.
  rewrite columns_elem. unfold unorderedColumns, columnsPermanent. cbn zeta.
  change (List.filter _ []) with (@nil Column.t). rewrite app_nil_l.
  rewrite elem_of_app, !list_elem_of_In, !filter_In, <- !list_elem_of_In.
  rewrite bool_decide_eq_true, optionalColumnNames_elem. tauto.
Qed.

Lemma named_columns_from order (unordered : list Column.t) : ∀ acc c,
  c ∈ foldl (fun ordered colName =>
               match List.find (fun c => String.eqb (Column.name c) colName) unordered with
               | Some col => ordered ++ [col]
               | None => ordered
               end) acc order →
  c ∈ acc ∨ c ∈ unordered.
Proof.
  induction order as [| n rest IH]; intros acc c; simpl; [by left |].
  intros [Hc | Hc]%IH; [| by right].
  destruct (List.find _ unordered) as [col |] eqn:Hfind; [| by left].
  apply elem_of_app in Hc as [? | ->%list_elem_of_singleton]; [by left | right].
  apply find_some in Hfind as [Hin _]. by apply list_elem_of_In.
Qed.

Lemma appended_columns rest : ∀ acc,
  let all := foldl (fun ordered col =>
                      if includes_column ordered col then ordered else ordered ++ [col])
                   acc rest in
  (∀ c, c ∈ acc → c ∈ all)
  ∧ (∀ col, col ∈ rest → ∃ c, c ∈ all ∧ Column.oid c = Column.oid col)
  ∧ (∀ c, c ∈ all → c ∈ acc ∨ c ∈ rest).
Proof.
  induction rest as [| col rest IH]; intros acc; simpl.
  - repeat split; [done | | by left]. intros ? Hc. by apply elem_of_nil in Hc.
  - destruct (IH (if includes_column acc col then acc else acc ++ [col]))
      as (Hkeep & Hadd & Hfrom).
    split; [| split].
    + intros c Hc. apply Hkeep. destruct (includes_column acc col); [done |].
      apply elem_of_app. by left.
    + intros col' [-> | Hin]%elem_of_cons; [| by apply Hadd].
      destruct (includes_column acc col) eqn:Hincl.
      * pose proof Hincl as Hex. unfold includes_column in Hex.
        apply existsb_exists in Hex as (c & Hc & Hoid).
        exists c. split; [apply Hkeep; by apply list_elem_of_In |].
        by apply Nat.eqb_eq.
      * exists col. split; [| done]. apply Hkeep.
        apply elem_of_app. right. by apply list_elem_of_singleton.
    + intros c [Hc | Hc]%Hfrom; [| right; by apply list_elem_of_further].
      destruct (includes_column acc col); [by left |].
      apply elem_of_app in Hc as [? | ->%list_elem_of_singleton]; [by left |].
      right. apply list_elem_of_here.
Qed.

(** The visible columns are the unordered ones, however they are
    ordered. *)
Lemma visibleColumns_elem ts src c :
  c ∈ visibleColumns ts src ↔ c ∈ unorderedColumns ts src.
Proof.
  unfold visibleColumns. cbn zeta.
  destruct (columnOrder src) as [| n order] eqn:Horder; [done |].
  set (named := foldl _ [] (n :: order)).
  assert (∀ c, c ∈ named → c ∈ unorderedColumns ts src) as Hnamed.
  { intros c' [Hc | Hc]%named_columns_from; [by apply elem_of_nil in Hc | done]. }
  destruct (appended_columns (unorderedColumns ts src) named) as (Hkeep & Hadd & Hfrom).
  split.
  - intros [Hc | Hc]%Hfrom; auto.
  - intros Hc. destruct (Hadd c Hc) as (c' & Hc' & Hoid).
    assert (c' ∈ unorderedColumns ts src) as Hc'u.
    { apply Hfrom in Hc' as [? | ?]; auto. }
    apply unorderedColumns_elem in Hc'u as [Hc'col _].
    pose proof Hc as Hcu. apply unorderedColumns_elem in Hcu as [Hccol _].
    by rewrite <- (columns_oid_inj src c' c Hc'col Hccol Hoid).
Qed.

(** C3, on the code.  The column named as the grouping key is withheld
    from the permanent columns only, and there is none: for every store,
    column order and grouping key, a built-in column whose flag is
    ['visible'] is among the visible columns although it is named as the
    grouping key. *)
Theorem visible_grouping_column_is_kept
    (ts : ResultTableStore.t) (src : IndexStore.t) (col : Column.t) :
  col ∈ columnsOptional src →
  Column.name col = groupName ts →
  column_flag src (groupName ts) = Some visible →
  col ∈ visibleColumns ts src
  ∧ groupName ts ∈ List.map Column.name (visibleColumns ts src).
Proof.
  intros Hcol Hname Hflag.
  assert (col ∈ visibleColumns ts src) as Hvisible.
  { apply visibleColumns_elem, unorderedColumns_elem. split.
    - apply columns_elem. by left.
    - by rewrite Hname. }
  split; [done |].
  rewrite <- Hname. apply list_elem_of_In, in_map. by apply list_elem_of_In.
Qed.

End Columns.

(** The store grouped by file shows the ['File'] column. *)
Lemma visible_grouping_column_is_kept_witness :
  List.map Column.name
    (ResultTableStore.visibleColumns ResultTableStore.byLocation Sample.store0)
  = ["Line"; "File"; "Status"; "Message"; "Rule"]
  ∧ "File" ∈ List.map Column.name
               (ResultTableStore.visibleColumns ResultTableStore.byLocation Sample.store0).
Proof.
  split; [reflexivity |].
  apply (visible_grouping_column_is_kept ResultTableStore.byLocation Sample.store0
           {| Column.oid := 1; Column.name := "File"; Column.width := 250;
              Column.toString := fun result =>
                default EmptyString (Result._relativeUri result);
              Column.toNumber := None |}).
  - unfold ResultTableStore.columnsOptional.
    apply list_elem_of_further, list_elem_of_here.
  - reflexivity.
  - reflexivity.
Defined.

(** C4, on the code.  The discovery compares a key with the dynamic
    columns only: a result with a property named ['File'] gives the table a
    second column named ['File'], and the names of the columns are no
    longer distinct. *)
Theorem dynamic_column_may_repeat_builtin_name :
  let s := IndexStore.logs_push true Sample.log_props Sample.store0 in
  IndexStore.dynamicColumns s = ["security-severity"; "File"]
  ∧ List.map Column.name (ResultTableStore.columns s)
    = ["Line"; "File"; "Status"; "Message"; "Baseline"; "Suppression"; "Rule";
       "security-severity"; "File"]
  ∧ ¬ NoDup (List.map Column.name (ResultTableStore.columns s)).
Proof.
  assert (List.map Column.name
            (ResultTableStore.columns
               (IndexStore.logs_push true Sample.log_props Sample.store0))
          = ["Line"; "File"; "Status"; "Message"; "Baseline"; "Suppression"; "Rule";
             "security-severity"; "File"]) as Hnames by reflexivity.
  cbn zeta. split; [reflexivity |]. split; [exact Hnames |].
  rewrite Hnames. intros Hnd.
  apply NoDup_cons in Hnd as [_ Hnd]. apply NoDup_cons in Hnd as [Hfile _].
  apply Hfile. do 6 apply list_elem_of_further. apply list_elem_of_here.
Qed.

(** ** Restoring the persisted filters *)

Section Restore.
Context `{IndexStore.Imports}.
Import IndexStore Notions.

(** C2, as the code has it.  A store built from a persisted blob has the
    row filters of the blob as they are, with the three categories that the
    constructor observes and nothing merged in: a value or a category that
    the blob lacks is not added.  The defaults are merged into the column
    flags only: every column of the defaults has a flag, the persisted one
    where the blob has it and the default one otherwise, and every
    persisted flag is kept. *)
Theorem new_restores_row_filters_and_merges_columns
    (state : gmap string (gmap string (gmap string Visibility)))
    (workspaceUri : option string) (s : t) :
  new state workspaceUri = Some s →
  state !! "filtersRow" = Some (filtersRow s)
  ∧ (is_Some (filtersRow s !! "Level")
     ∧ is_Some (filtersRow s !! "Baseline")
     ∧ is_Some (filtersRow s !! "Suppression"))
  ∧ (∀ name flag,
       FiltersColumn.Columns shared_filtersColumn !! name = Some flag →
       column_flag s name = Some (default flag (persisted_columns state !! name)))
  ∧ (∀ name flag,
       persisted_columns state !! name = Some flag → column_flag s name = Some flag)
  ∧ (∀ name,
       is_Some (column_flag s name)
       ↔ is_Some (persisted_columns state !! name)
         ∨ is_Some (FiltersColumn.Columns shared_filtersColumn !! name)).
Proof.
  unfold new. intros Hnew.
  destruct (state !! "filtersRow") as [rows |] eqn:Hrows; [| discriminate].
  destruct (rows !! "Level") as [l |] eqn:Hl; [| discriminate].
  destruct (rows !! "Baseline") as [b |] eqn:Hb; [| discriminate].
  destruct (rows !! "Suppression") as [u |] eqn:Hu; [| discriminate].
  injection Hnew as <-. unfold column_flag, persisted_columns. simpl.
  rewrite Hl, Hb, Hu.
  split; [done |]. split; [by eauto |]. split; [| split].
  - intros name flag Hdefault. rewrite lookup_union.
    destruct (default ∅ _ !! name) as [v |]; simpl; by rewrite Hdefault.
  - intros name flag Hpersisted. rewrite lookup_union, Hpersisted.
    by destruct (FiltersColumn.Columns shared_filtersColumn !! name).
  - intros name. rewrite lookup_union.
    destruct (default ∅ _ !! name) as [v |],
             (FiltersColumn.Columns shared_filtersColumn !! name) as [w |]; simpl;
      split; try (by eauto); intros [[? ?] | [? ?]]; done.
Qed.

(** Whatever the defaults are, as soon as they have one value in one
    category there is a blob from which the store is built without that
    value: the blob with the three categories empty. *)
Lemma row_filters_gap_for_any_defaults category values value flag :
  shared_filtersRow !! category = Some values →
  values !! value = Some flag →
  ∃ state s, new state None = Some s ∧ ¬ row_filters_cover_defaults s.
Proof.
  intros Hcategory Hvalue.
  set (rows := ({[ "Level" := ∅; "Baseline" := ∅; "Suppression" := ∅ ]}
                : gmap string (gmap string Visibility))).
  set (state := ({[ "filtersRow" := rows ]}
                 : gmap string (gmap string (gmap string Visibility)))).
  assert (∃ s, new state None = Some s ∧ filtersRow s = rows) as (s & Hnew & Hrows).
  { assert (rows !! "Level" = Some ∅) as HL by reflexivity.
    assert (rows !! "Baseline" = Some ∅) as HB by reflexivity.
    assert (rows !! "Suppression" = Some ∅) as HS by reflexivity.
    unfold new. subst state. rewrite lookup_singleton_eq, HL, HB, HS.
    eexists. split; reflexivity. }
  exists state, s. split; [exact Hnew |]. intros Hcover.
  destruct (Hcover category values value flag Hcategory Hvalue) as (stored & Hstored & [v Hv]).
  rewrite Hrows in Hstored. subst rows.
  do 2 (apply lookup_insert_Some in Hstored as [[_ <-] | [_ Hstored]];
        [by rewrite lookup_empty in Hv |]).
  apply lookup_singleton_Some in Hstored as [_ <-]. by rewrite lookup_empty in Hv.
Qed.

End Restore.

(** An older blob: the level ['None'] and the column ['Status'] are new to
    it, and it hides the ['Rule'] column. *)
Lemma new_restores_row_filters_and_merges_columns_witness :
  ∃ s, IndexStore.new Sample.state_old None = Some s
       ∧ Sample.state_old !! "filtersRow" = Some (IndexStore.filtersRow s)
       ∧ Notions.column_flag s "Status" = Some visible
       ∧ Notions.column_flag s "Rule" = Some hidden.
Proof.
  destruct (IndexStore.new Sample.state_old None) as [s |] eqn:Hnew;
    [| vm_compute in Hnew; discriminate].
  exists s. split; [reflexivity |].
  destruct (new_restores_row_filters_and_merges_columns Sample.state_old None s Hnew)
    as (Hrows & _ & Hdefaults & Hpersisted & _).
  split; [exact Hrows |]. split.
  - apply (Hdefaults "Status" visible). reflexivity.
  - apply (Hpersisted "Rule" hidden). reflexivity.
Defined.

(** C2, as the spec words it, fails: built from that older blob, the store
    has no entry for the level ['None'] of the defaults. *)
Lemma row_filters_not_merged_with_defaults :
  ∃ s levels,
    IndexStore.new Sample.state_old None = Some s
    ∧ IndexStore.filtersRow s !! "Level" = Some levels
    ∧ levels !! "None" = None
    ∧ ¬ Notions.row_filters_cover_defaults s.
Proof.
  destruct (IndexStore.new Sample.state_old None) as [s |] eqn:Hnew;
    [| vm_compute in Hnew; discriminate].
  destruct (IndexStore.filtersRow s !! "Level") as [levels |] eqn:Hlevels.
  - exists s, levels.
    assert (levels !! "None" = None) as Hnone.
    { vm_compute in Hnew. injection Hnew as <-. vm_compute in Hlevels.
      injection Hlevels as <-. reflexivity. }
    split; [reflexivity |]. split; [exact Hlevels |]. split; [exact Hnone |].
    intros Hcover.
    destruct (Hcover "Level"
                {[ "Error" := visible; "Warning" := visible;
                   "Note" := visible; "None" := visible ]}
                "None" visible eq_refl eq_refl) as (stored & Hstored & [v Hv]).
    rewrite Hlevels in Hstored. injection Hstored as <-. congruence.
  - vm_compute in Hnew. injection Hnew as <-. vm_compute in Hlevels. discriminate.
Qed.

(** ** The filter of the result table *)

Section Filter.
Context `{Js.Engine}.
Import IndexStore Notions ResultTableStore.

Lemma prefix_spec keyword : ∀ field,
  String.prefix keyword field = true ↔ ∃ after, field = keyword +:+ after.
Proof.
  induction keyword as [| c keyword IH]; intros field.
  - split; [intros _; by exists field | by destruct field].
  - destruct field as [| d field]; simpl; [split; [done | intros [? ?]; done] |].
    destruct (Ascii.ascii_dec c d) as [-> | Hne].
    + rewrite IH. split; intros [after Hafter]; exists after.
      * by rewrite Hafter.
      * by injection Hafter.
    + split; [done |]. intros [after Hafter]. by injection Hafter.
Qed.

(** [includes] finds the occurrences of the key word. *)
Lemma includes_spec field : ∀ keyword,
  Js.includes field keyword = true ↔ substring keyword field.
Proof.
  unfold substring.
  induction field as [| c field IH]; intros keyword.
  - change (Js.includes EmptyString keyword)
      with (String.prefix keyword EmptyString || false).
    rewrite orb_false_r, prefix_spec. split.
    + intros [after ->]. by exists EmptyString, after.
    + intros (before & after & Hfield). destruct before; [by exists after |]. done.
  - change (Js.includes (String c field) keyword)
      with (String.prefix keyword (String c field) || Js.includes field keyword).
    rewrite orb_true_iff, prefix_spec, IH. split.
    + intros [[after ->] | (before & after & ->)].
      * by exists EmptyString, after.
      * by exists (String c before), after.
    + intros (before & after & Hfield).
      destruct before as [| d before]; [left; by exists after |].
      right. exists before, after. by injection Hfield.
Qed.

Lemma mapToList_elem record value :
  value ∈ mapToList record ↔ label_visible record value.
Proof.
  unfold mapToList, label_visible.
  rewrite list_elem_of_In, in_map_iff. split.
  - intros ([k v] & <- & Hin). apply filter_In in Hin as [Hin Hv]. simpl in *.
    apply list_elem_of_In, elem_of_map_to_list in Hin. exists k. by destruct v.
  - intros (label & Hflag & <-). exists (label, visible). split; [done |].
    apply filter_In. split; [| done].
    by apply list_elem_of_In, elem_of_map_to_list.
Qed.

Lemma isMatch_spec field keywords :
  isMatch field keywords = true
  ↔ keywords = [] ∨ ∃ keyword, keyword ∈ keywords ∧ substring keyword field.
Proof.
  unfold isMatch. rewrite orb_true_iff, Nat.eqb_eq, existsb_exists. split.
  - intros [Hlen | (k & Hk & Hinc)].
    + left. by destruct keywords.
    + right. exists k. split; [by apply list_elem_of_In | by apply includes_spec].
  - intros [-> | (k & Hk & Hsub)]; [by left |].
    right. exists k. split; [by apply list_elem_of_In | by apply includes_spec].
Qed.

(** The key word clause of the filter: all the columns are searched, and
    there is always a column. *)
Lemma keyword_clause_spec src result :
  existsb (fun col =>
             isMatch (Js.toLowerCase (Column.toString col result)) (filterKeywords src))
          (columns src) = true
  ↔ filterKeywords src = [] ∨ keyword_in_column src (columns src) result.
Proof.
  rewrite existsb_exists. unfold keyword_in_column. split.
  - intros (col & Hcol & [Hnil | (k & Hk & Hsub)]%isMatch_spec); [by left |].
    right. exists col, k. split; [by apply list_elem_of_In | done].
  - intros [Hnil | (col & k & Hcol & Hk & Hsub)].
    + destruct (columns src) as [| first rest] eqn:Hcolumns; [discriminate |].
      exists first. split; [by left |]. apply isMatch_spec. by left.
    + exists col. split; [by apply list_elem_of_In |].
      apply isMatch_spec. right. by exists k.
Qed.

(** C1, as the code has it.  In every store that has the three categories
    of row filters (every store that was constructed), the filter exists
    and accepts a result if and only if its level, its baseline state and
    its suppression state are each the lower-cased label of an entry whose
    flag is ['visible'] and, when there is a key word, some key word occurs
    in the lower-cased text of some column of the table, visible or
    hidden; without key words that last clause holds. *)
Theorem filter_accepts_iff_rows_and_keyword_in_any_column
    (src : IndexStore.t) (Level Baseline Suppression : gmap string Visibility) :
  filtersRow src !! "Level" = Some Level →
  filtersRow src !! "Baseline" = Some Baseline →
  filtersRow src !! "Suppression" = Some Suppression →
  ∃ accepts,
    filter src = Some accepts
    ∧ ∀ result, accepts result = true ↔ passes_on_all_columns src result.
Proof.
  intros HL HB HS. unfold filter. rewrite HL, HB, HS.
  eexists. split; [reflexivity |]. intros result. cbn beta zeta.
  unfold passes_on_all_columns, passes_row_filters.
  rewrite <- keyword_clause_spec.
  destruct (bool_decide (default EmptyString (Result.level result) ∈ mapToList Level))
    eqn:Hl; simpl.
  2: { split; [done |]. intros [(L & B & S & EL & EB & ES & Hlv & _) _].
       apply bool_decide_eq_false in Hl. destruct Hl. apply mapToList_elem. congruence. }
  destruct (bool_decide (default EmptyString (Result.baselineState result) ∈ mapToList Baseline))
    eqn:Hb; simpl.
  2: { split; [done |]. intros [(L & B & S & EL & EB & ES & _ & Hbl & _) _].
       apply bool_decide_eq_false in Hb. destruct Hb. apply mapToList_elem. congruence. }
  destruct (bool_decide (default EmptyString (Result._suppression result) ∈ mapToList Suppression))
    eqn:Hs; simpl.
  2: { split; [done |]. intros [(L & B & S & EL & EB & ES & _ & _ & Hsp) _].
       apply bool_decide_eq_false in Hs. destruct Hs. apply mapToList_elem. congruence. }
  apply bool_decide_eq_true, mapToList_elem in Hl, Hb, Hs.
  split.
  - intros Hkw. split; [| exact Hkw]. exists Level, Baseline, Suppression. done.
  - by intros [_ Hkw].
Qed.

(** Where no visible column matches a key word and there is one, the
    filter of the spec rejects. *)
Lemma keyword_clause_fails ts src result :
  existsb (fun col =>
             isMatch (Js.toLowerCase (Column.toString col result)) (filterKeywords src))
          (visibleColumns ts src) = false →
  filterKeywords src ≠ [] →
  ¬ passes_on_visible_columns ts src result.
Proof.
  intros Hnone Hsome [_ [Hnil | (col & k & Hcol & Hk & Hsub)]]; [done |].
  apply not_true_iff_false in Hnone. apply Hnone.
  apply existsb_exists. exists col. split; [by apply list_elem_of_In |].
  apply isMatch_spec. right. by exists k.
Qed.

End Filter.

(** The key word [foo] and the rule [foobar], with the ['Rule'] column
    hidden. *)
Lemma filter_accepts_iff_rows_and_keyword_in_any_column_witness :
  ∃ accepts,
    ResultTableStore.filter Sample.store_foo = Some accepts
    ∧ (accepts Sample.result1 = true
       ↔ Notions.passes_on_all_columns Sample.store_foo Sample.result1).
Proof.
  destruct (filter_accepts_iff_rows_and_keyword_in_any_column Sample.store_foo
              {[ "Error" := visible; "Warning" := visible;
                 "Note" := visible; "None" := visible ]}
              {[ "New" := visible; "Unchanged" := visible;
                 "Updated" := visible; "Absent" := hidden ]}
              {[ "Not Suppressed" := visible; "Suppressed" := hidden ]})
    as (accepts & Hfilter & Hiff).
  - vm_compute. reflexivity.
  - vm_compute. reflexivity.
  - vm_compute. reflexivity.
  - exists accepts. split; [exact Hfilter | apply Hiff].
Defined.

(** C1, as the spec words it, fails: with the key word [foo] and the
    ['Rule'] column hidden, the result of rule [foobar] is accepted by the
    filter, although no visible column of either store has [foo] in its
    text. *)
Lemma filter_matches_hidden_column :
  ResultTableStore.filterKeywords Sample.store_foo = ["foo"]
  ∧ List.map Column.name
      (ResultTableStore.visibleColumns ResultTableStore.byRule Sample.store_foo)
    = ["Line"; "File"; "Status"; "Message"]
  ∧ (∃ accepts, ResultTableStore.filter Sample.store_foo = Some accepts
                ∧ accepts Sample.result1 = true)
  ∧ ¬ Notions.passes_on_visible_columns ResultTableStore.byRule Sample.store_foo Sample.result1
  ∧ ¬ Notions.passes_on_visible_columns ResultTableStore.byLocation Sample.store_foo Sample.result1.
Proof.
  split; [vm_compute; reflexivity |].
  split; [vm_compute; reflexivity |]. split; [| split].
  - eexists. split; [vm_compute; reflexivity |]. vm_compute. reflexivity.
  - apply keyword_clause_fails; [vm_compute; reflexivity | vm_compute; discriminate].
  - apply keyword_clause_fails; [vm_compute; reflexivity | vm_compute; discriminate].
Qed.

(** ** The logs and their results *)

Section Results.
Context `{IndexStore.Imports}.
Import IndexStore Notions.

Lemma results_of_app rs1 rs2 :
  results_of (rs1 ++ rs2)
  = match results_of rs1, results_of rs2 with
    | Some a, Some b => Some (a ++ b)
    | _, _ => None
    end.
Proof.
  induction rs1 as [| [run |] rest IH]; simpl.
  - by destruct (results_of rs2).
  - rewrite IH. destruct (results_of rest), (results_of rs2); try done.
    by rewrite app_assoc.
  - done.
Qed.

Lemma results_of_Some rs :
  results_of (List.map Some rs)
  = Some (concat (List.map (fun run => default [] (Run.results run)) rs)).
Proof. induction rs as [| run rest IH]; simpl; [done | by rewrite IH]. Qed.

Lemma register_key_frame s key :
  selection (register_key s key) = selection s
  ∧ logs (register_key s key) = logs s
  ∧ driverlessRules (register_key s key) = driverlessRules s
  ∧ workspaceUri (register_key s key) = workspaceUri s
  ∧ resultStatuses (register_key s key) = resultStatuses s
  ∧ filtersRow (register_key s key) = filtersRow s
  ∧ columnOrder (register_key s key) = columnOrder s.
Proof.
  unfold register_key. case_bool_decide; [done |]. cbn zeta.
  destruct (FiltersColumn.Columns _ !! key) as [[] |]; [done | done |].
  by destruct (Js.inherited key).
Qed.

Lemma extractDynamicColumns_frame log s :
  selection (extractDynamicColumns log s) = selection s
  ∧ logs (extractDynamicColumns log s) = logs s
  ∧ driverlessRules (extractDynamicColumns log s) = driverlessRules s
  ∧ workspaceUri (extractDynamicColumns log s) = workspaceUri s
  ∧ resultStatuses (extractDynamicColumns log s) = resultStatuses s
  ∧ filtersRow (extractDynamicColumns log s) = filtersRow s
  ∧ columnOrder (extractDynamicColumns log s) = columnOrder s.
Proof.
  unfold extractDynamicColumns. generalize (propertyKeys log). intros ks.
  revert s. induction ks as [| k rest IH]; intros s; simpl; [done |].
  destruct (IH (register_key s k)) as (-> & -> & -> & -> & -> & -> & ->).
  apply register_key_frame.
Qed.

(** What [logs.push(log)] does to the fields other than the dynamic
    columns, their flags and the posted messages. *)
Lemma logs_push_frame active log s :
  logs (logs_push active log s)
  = logs s ++ [fst (augmentLog log (driverlessRules s) (workspaceUri s))]
  ∧ driverlessRules (logs_push active log s)
    = snd (augmentLog log (driverlessRules s) (workspaceUri s))
  ∧ workspaceUri (logs_push active log s) = workspaceUri s
  ∧ resultStatuses (logs_push active log s) = resultStatuses s
  ∧ filtersRow (logs_push active log s) = filtersRow s
  ∧ columnOrder (logs_push active log s) = columnOrder s.
Proof.
  unfold logs_push, logs_intercept_added.
  destruct (augmentLog log (driverlessRules s) (workspaceUri s)) as [log' rules]. simpl.
  destruct (extractDynamicColumns_frame log' (set_driverlessRules rules s))
    as (Hsel & Hlogs & Hrules & Hws & Hstatuses & Hrows & Horder).
  unfold logs_observer. simpl. rewrite Hlogs. simpl.
  destruct (logs s ++ [log']) eqn:E; [by destruct (logs s) |]. simpl.
  by rewrite Hrules, Hws, Hstatuses, Hrows, Horder.
Qed.

(** The set of property keys has each key once. *)
Lemma Set_add_NoDup keys key : NoDup keys → NoDup (Set_add keys key).
Proof.
  intros Hnd. unfold Set_add. case_bool_decide as Hin; [done |].
  apply NoDup_app. repeat split; [done | | apply NoDup_singleton].
  intros k Hk ->%list_elem_of_singleton. done.
Qed.

Lemma propertyKeys_NoDup log : NoDup (propertyKeys log).
Proof.
  unfold propertyKeys. generalize (default [] (Log.runs log)). intros runs.
  assert (NoDup (@nil string)) as Hnil by apply NoDup_nil_2.
  revert Hnil. generalize (@nil string).
  induction runs as [| run runs IHruns]; intros acc Hacc; simpl; [done |].
  apply IHruns. revert acc Hacc.
  induction (default [] (Run.results run)) as [| result results IHresults];
    intros acc Hacc; simpl; [done |].
  apply IHresults. revert acc Hacc.
  induction (Object_keys result) as [| key keys IHkeys]; intros acc Hacc; simpl; [done |].
  apply IHkeys. destruct (negb (String.eqb key "tags")); [by apply Set_add_NoDup | done].
Qed.

(** A key gets a new flag, and [setState] runs, when the key is not yet a
    dynamic column, has no flag and names no member of
    [Object.prototype]. *)
Lemma register_key_posted s key :
  posted (register_key s key)
  = posted s
    ++ (if negb (bool_decide (key ∈ dynamicColumns s))
           && negb (bool_decide (is_Some (column_flag s key)))
           && negb (Js.inherited key)
        then [Post.setState] else []).
Proof.
  unfold register_key, column_flag. case_bool_decide as Hin; simpl; [by rewrite app_nil_r |].
  destruct (FiltersColumn.Columns (filtersColumn s) !! key) as [flag |] eqn:Hflag.
  - rewrite bool_decide_eq_true_2 by eauto. simpl. rewrite app_nil_r. by destruct flag.
  - rewrite bool_decide_eq_false_2 by (intros [? ?]; done). simpl.
    destruct (Js.inherited key); simpl; [by rewrite app_nil_r | done].
Qed.

Lemma register_key_other s key k :
  k ≠ key →
  (k ∈ dynamicColumns (register_key s key) ↔ k ∈ dynamicColumns s)
  ∧ column_flag (register_key s key) k = column_flag s k.
Proof.
  intros Hne. split.
  - rewrite register_key_elem. split; [intros [? | ?]; done | by left].
  - unfold register_key, column_flag. case_bool_decide; [done |]. cbn zeta.
    destruct (FiltersColumn.Columns _ !! key) as [[] |]; simpl; [done | |].
    + by rewrite lookup_insert_ne.
    + destruct (Js.inherited key); simpl; [done | by rewrite lookup_insert_ne].
Qed.

Lemma register_keys_posted ks : ∀ s,
  NoDup ks →
  posted (foldl register_key s ks)
  = posted s
    ++ List.map (fun _ => Post.setState)
         (List.filter
            (fun key => negb (bool_decide (key ∈ dynamicColumns s))
                        && negb (bool_decide (is_Some (column_flag s key)))
                        && negb (Js.inherited key)) ks).
Proof.
  induction ks as [| k rest IH]; intros s Hnd; simpl; [by rewrite app_nil_r |].
  apply NoDup_cons in Hnd as [Hk Hrest].
  rewrite IH, register_key_posted, <- app_assoc by done. f_equal.
  assert (List.filter
            (fun key => negb (bool_decide (key ∈ dynamicColumns (register_key s k)))
                        && negb (bool_decide (is_Some (column_flag (register_key s k) key)))
                        && negb (Js.inherited key)) rest
          = List.filter
              (fun key => negb (bool_decide (key ∈ dynamicColumns s))
                          && negb (bool_decide (is_Some (column_flag s key)))
                          && negb (Js.inherited key)) rest) as ->.
  { apply filter_ext_in. intros key Hkey%list_elem_of_In.
    assert (key ≠ k) as Hne by (intros ->; done).
    destruct (register_key_other s k key Hne) as [Hdyn Hflag].
    rewrite Hflag. do 2 f_equal. f_equal. by apply bool_decide_ext. }
  by destruct (negb (bool_decide (k ∈ dynamicColumns s))
               && negb (bool_decide (is_Some (column_flag s k)))
               && negb (Js.inherited k)).
Qed.

(** The messages of one ingestion: one ['setState'] for each key that gets
    a new flag. *)
Lemma logs_push_posted active log s :
  posted (logs_push active log s)
  = posted s
    ++ List.map (fun _ => Post.setState)
         (seeded s (fst (augmentLog log (driverlessRules s) (workspaceUri s)))).
Proof.
  unfold logs_push, logs_intercept_added, seeded.
  destruct (augmentLog log (driverlessRules s) (workspaceUri s)) as [log' rules]. simpl.
  destruct (extractDynamicColumns_frame log' (set_driverlessRules rules s))
    as (_ & Hlogs & _).
  unfold logs_observer. simpl. rewrite Hlogs. simpl.
  destruct (logs s ++ [log']) eqn:E; [by destruct (logs s) |]. simpl.
  unfold extractDynamicColumns.
  by rewrite register_keys_posted by apply propertyKeys_NoDup.
Qed.

(** X1. Ingesting a log appends it, as augmented, to the logs and appends
    its results, run by run, to the results of the store; the triage
    statuses are left as they were, and among the messages that the
    ingestion posts there is one ['setState'] for each property key that
    gets a new flag, and no other.  A log that comes out of the
    augmentation without [runs] makes the getter [results] throw. *)
Theorem results_after_push (active : bool) (log : Log.t) (s : t) :
  let log' := fst (augmentLog log (driverlessRules s) (workspaceUri s)) in
  let s' := logs_push active log s in
  logs s' = logs s ++ [log']
  ∧ resultStatuses s' = resultStatuses s
  ∧ (∃ more, posted s' = posted s ++ more
             ∧ List.filter is_setState more
               = List.map (fun _ => Post.setState) (seeded s log'))
  ∧ (∀ found rs, results s = Some found → Log.runs log' = Some rs →
       results s' = Some (found ++ log_results log'))
  ∧ (Log.runs log' = None → results s' = None).
Proof.
  cbn zeta. destruct (logs_push_frame active log s) as (Hlogs & _ & _ & Hst & _).
  split; [done |]. split; [done |]. split.
  { eexists. split; [apply logs_push_posted |].
    generalize (seeded s (fst (augmentLog log (driverlessRules s) (workspaceUri s)))).
    intros keys. induction keys as [| k rest IH]; simpl; [done | by f_equal]. }
  unfold results, runs. rewrite Hlogs, map_app, concat_app, results_of_app. simpl.
  rewrite app_nil_r. split.
  - intros found rs Hfound Hrs. unfold results, runs in Hfound. rewrite Hfound, Hrs.
    rewrite results_of_Some. unfold log_results. by rewrite Hrs.
  - intros ->. simpl. by destruct (results_of _).
Qed.

Lemma findIndex_None uri l :
  findIndex uri l = None ↔ ∀ log, log ∈ l → Log._uri log ≠ uri.
Proof.
  induction l as [| log rest IH]; simpl.
  - split; [intros _ ? Hin; by apply elem_of_nil in Hin | done].
  - destruct (String.eqb_spec (Log._uri log) uri) as [Heq | Hne].
    + split; [done |]. intros Hall. destruct (Hall log); [apply list_elem_of_here | done].
    + destruct (findIndex uri rest) as [i |]; simpl.
      * split; [done |]. intros Hall. exfalso.
        assert (@eq (option nat) (Some i) None) as E; [| discriminate].
        apply IH. intros l' Hl'. apply Hall. by apply list_elem_of_further.
      * split; [| done]. intros _ l' [-> | Hl']%elem_of_cons; [done |].
        by apply IH.
Qed.

Lemma findIndex_first uri before log after :
  (∀ l, l ∈ before → Log._uri l ≠ uri) → Log._uri log = uri →
  findIndex uri (before ++ log :: after) = Some (length before).
Proof.
  intros Hbefore Hlog. induction before as [| b rest IH]; simpl.
  - by rewrite <- Hlog, String.eqb_refl.
  - destruct (String.eqb_spec (Log._uri b) uri) as [Heq | Hne].
    + destruct (Hbefore b); [apply list_elem_of_here | done].
    + rewrite IH; [done |]. intros l Hl. apply Hbefore. by apply list_elem_of_further.
Qed.

(** X2. Removing a log by uri takes out the first log of that uri and
    nothing else: the logs before and after it keep their order, later logs
    of the same uri stay; a uri that no log has leaves the store exactly as
    it was. *)
Theorem remove_log_first_match (active : bool) (uri : string) (s : t) :
  ((∀ log, log ∈ logs s → Log._uri log ≠ uri) → remove_log active s uri = s)
  ∧ (∀ before log after,
       logs s = before ++ log :: after →
       (∀ l, l ∈ before → Log._uri l ≠ uri) → Log._uri log = uri →
       logs (remove_log active s uri) = before ++ after
       ∧ posted (remove_log active s uri) = posted s
       ∧ dynamicColumns (remove_log active s uri) = dynamicColumns s).
Proof.
  split.
  - intros Habsent. unfold remove_log.
    by apply findIndex_None in Habsent as ->.
  - intros before log after Hlogs Hbefore Hlog. unfold remove_log, logs_splice.
    rewrite Hlogs, findIndex_first by done.
    rewrite length_app. simpl.
    destruct (length before <? length before + S (length after))%nat eqn:Hlt;
      [| apply Nat.ltb_ge in Hlt; lia].
    assert (delete (length before) (before ++ log :: after) = before ++ after) as Hdel.
    { clear. induction before as [| b rest IH]; simpl; [done | by rewrite IH]. }
    unfold logs_observer. simpl. rewrite Hdel.
    destruct (before ++ after) eqn:E; simpl; [| done].
    rewrite logs_selection_set, posted_selection_set_None. simpl.
    split; [done |]. split; [done |].
    unfold selection_set. simpl. destruct (selection_is (selection s) None); [done |].
    destruct (autorun_selection_frame active (set_selection None (set_logs [] s)))
      as (_ & _ & Hdyn & _).
    exact Hdyn.
Qed.

End Results.

(** ** The messages of the extension *)

Section Messages.
Context `{IndexStore.Imports}.
Import IndexStore Notions.

Lemma add_log_Threw active e s added :
  foldl (add_log active) (Threw e s) added = Threw e s.
Proof. induction added as [| a rest IH]; simpl; [done | exact IH]. Qed.

Lemma add_log_parsed active s a log :
  entry_log a = Some log →
  add_log active (Returned s) a = Returned (logs_push active log s).
Proof.
  unfold entry_log, parsed, add_log.
  destruct (if present (Added.text a) then _ else _) as [read |]; simpl; [| done].
  by intros [= <-].
Qed.

Lemma add_logs_all_parsed active added : ∀ s,
  Forall (fun a => is_Some (parsed a)) added →
  ∃ s', foldl (add_log active) (Returned s) added = Returned s'
        ∧ logs s' = logs s ++ stored s added.
Proof.
  induction added as [| a rest IH]; intros s Hall.
  - exists s. by rewrite app_nil_r.
  - apply Forall_cons in Hall as [[read Hread] Hrest].
    assert (∃ log, entry_log a = Some log) as [log Hlog]
      by (unfold entry_log; rewrite Hread; by eexists).
    change (foldl (add_log active) (Returned s) (a :: rest))
      with (foldl (add_log active) (add_log active (Returned s) a) rest).
    rewrite (add_log_parsed active s a log Hlog).
    destruct (IH (logs_push active log s) Hrest) as (s' & -> & Hlogs).
    exists s'. split; [done |].
    destruct (logs_push_frame active log s) as (Hpushed & Hrules & Hws & _).
    rewrite Hlogs, Hpushed, <- app_assoc. f_equal.
    unfold stored. rewrite Hrules, Hws. simpl. by rewrite Hlog.
Qed.

(** X3. A ['spliceLogs'] message first removes, then adds in the order of
    the message.  When every added entry parses, the handler returns and
    the logs are those left by the removals followed by the logs of the
    entries, each under the uri of its entry and augmented, in the order of
    the message.  When an entry does not parse, the handler throws at that
    entry: the store is the one that the message cut before that entry
    leaves, with the logs of the entries before it, and the entries after
    it are never read. *)
Theorem spliceLogs_adds_in_order_until_parse_error
    (active : bool) (removed : list string) (s : t) :
  let kept := foldl (remove_log active) s removed in
  (∀ added,
     Forall (fun a => is_Some (parsed a)) added →
     ∃ s',
       onMessage active (message (Command.spliceLogs removed added)) s = Returned s'
       ∧ logs s' = logs kept ++ stored kept added)
  ∧ (∀ good bad rest,
       Forall (fun a => is_Some (parsed a)) good → parsed bad = None →
       ∃ error s',
         onMessage active (message (Command.spliceLogs removed (good ++ bad :: rest))) s
         = Threw error s'
         ∧ onMessage active (message (Command.spliceLogs removed good)) s = Returned s'
         ∧ logs s' = logs kept ++ stored kept good).
Proof.
  cbn zeta. split.
  - intros added Hall. simpl. by apply add_logs_all_parsed.
  - intros good bad rest Hgood Hbad. simpl.
    destruct (add_logs_all_parsed active good (foldl (remove_log active) s removed) Hgood)
      as (s1 & Hfold & Hlogs).
    exists "SyntaxError", s1. split; [| done].
    rewrite foldl_app, Hfold.
    change (foldl (add_log active) (Returned s1) (bad :: rest))
      with (foldl (add_log active) (add_log active (Returned s1) bad) rest).
    assert (add_log active (Returned s1) bad = Threw "SyntaxError" s1) as ->.
    { unfold parsed in Hbad. unfold add_log. by rewrite Hbad. }
    apply add_log_Threw.
Qed.

(** X4. A message without data, a message that carries a marker of the
    development tools (even with a command the panel knows), a message
    without command and a message with a command that the panel does not
    know are dropped: the handler returns and the store is as it was. *)
Theorem foreign_messages_are_ignored (active : bool) (s : t) :
  onMessage active None s = Returned s
  ∧ (∀ d, present (EventData.source d) = true ∨ present (EventData.type_ d) = true →
          onMessage active (Some d) s = Returned s)
  ∧ (∀ d, EventData.command d = None → onMessage active (Some d) s = Returned s)
  ∧ (∀ d name, EventData.command d = Some (Command.other name) →
               onMessage active (Some d) s = Returned s).
Proof.
  split; [done |]. split; [| split].
  - intros d [Hs | Ht]; unfold onMessage; rewrite ?Hs, ?Ht; [done |].
    by destruct (present (EventData.source d)).
  - intros d Hc. unfold onMessage. rewrite Hc.
    by destruct (present (EventData.source d)), (present (EventData.type_ d)).
  - intros d name Hc. unfold onMessage. rewrite Hc.
    by destruct (present (EventData.source d)), (present (EventData.type_ d)).
Qed.

(** X5. ['loadResultStatuses'] replaces the triage map as a whole: every
    identity then reads the status of the loaded map, ['unchecked'] where
    the loaded map has none (also for an identity that had a status
    before) and everywhere when the message carries no map; nothing is
    posted back. *)
Theorem loadResultStatuses_replaces_all
    (active : bool) (loaded : option (gmap string ResultStatus)) (s : t) :
  ∃ s', onMessage active (message (Command.loadResultStatuses loaded)) s = Returned s'
        ∧ posted s' = posted s
        ∧ (∀ id, getResultStatus id s'
                 = default unchecked (loaded ≫= fun statuses => statuses !! id))
        ∧ (∀ id status prior,
             loaded = None ∨ (∃ statuses, loaded = Some statuses ∧ statuses !! id = None) →
             onMessage active (message (Command.loadResultStatuses loaded))
               (setResultStatus id status prior)
             = Returned (set_resultStatuses (default ∅ loaded) (setResultStatus id status prior))
             ∧ getResultStatus id
                 (set_resultStatuses (default ∅ loaded) (setResultStatus id status prior))
               = unchecked).
Proof.
  eexists. split; [reflexivity |]. split; [done |]. split.
  - intros id. unfold getResultStatus. simpl.
    destruct loaded as [statuses |]; simpl; [by destruct (statuses !! id) | done].
  - intros id status prior Hgone. split; [done |].
    unfold getResultStatus. simpl.
    destruct Hgone as [-> | (statuses & -> & Hnone)]; simpl; [done | by rewrite Hnone].
Qed.

(** X6. ['basePathSet'] shows a notice and schedules the banner it found to
    come back.  With no other timer pending, the banner that comes back
    when the timer fires is the one from before the message; it also
    replaces a banner that a ['setBanner'] message set in the meantime;
    and after two ['basePathSet'] messages in a row and both timers, the
    banner that stays is the notice, the first banner being lost. *)
Theorem basePathSet_restores_the_banner_it_found (active : bool) (s : t) :
  pendingTimeouts s = [] →
  let notice := "Base path updated. Paths should now resolve." in
  let after m s := outcome_state (onMessage active (message m) s) in
  banner (after Command.basePathSet s) = notice
  ∧ banner (timeout_fires (after Command.basePathSet s)) = banner s
  ∧ pendingTimeouts (timeout_fires (after Command.basePathSet s)) = []
  ∧ (∀ text,
       banner (after (Command.setBanner text) (after Command.basePathSet s))
       = default EmptyString text
       ∧ banner (timeout_fires
                   (after (Command.setBanner text) (after Command.basePathSet s)))
         = banner s)
  ∧ banner (timeout_fires (timeout_fires
              (after Command.basePathSet (after Command.basePathSet s))))
    = notice.
Proof.
  intros Hpending. cbn zeta. unfold timeout_fires. simpl. rewrite Hpending. simpl.
  repeat split; done.
Qed.

Lemma count_remove_first (k x : string) (l : list string) :
  count_occ string_dec (remove_first x l) k
  = if decide (k = x) then pred (count_occ string_dec l k) else count_occ string_dec l k.
Proof.
  induction l as [| y rest IH]; simpl; [by case_decide |].
  destruct (String.eqb_spec y x) as [-> | Hyx].
  - destruct (string_dec x k) as [-> | Hxk]; case_decide; try done; congruence.
  - simpl. rewrite IH.
    destruct (string_dec y k) as [-> | Hyk]; case_decide; try done; congruence.
Qed.

Lemma count_remove_all (k : string) (removed : list string) : ∀ l,
  count_occ string_dec (foldl (fun (fixed : list string) x => remove_first x fixed) l removed) k
  = (count_occ string_dec l k - count_occ string_dec removed k)%nat.
Proof.
  induction removed as [| x rest IH]; intros l; simpl; [lia |].
  rewrite IH, count_remove_first.
  destruct (string_dec x k) as [-> | Hne]; case_decide; try congruence; lia.
Qed.

Lemma count_push_all (k : string) (added : list string) : ∀ l,
  count_occ string_dec (foldl (fun (fixed : list string) x => fixed ++ [x]) l added) k
  = (count_occ string_dec l k + count_occ string_dec added k)%nat.
Proof.
  induction added as [| x rest IH]; intros l; simpl; [lia |].
  rewrite IH, count_occ_app. simpl. destruct (string_dec x k); lia.
Qed.

(** X7. ['spliceResultsFixed'] removes one occurrence for each removed
    identity, then pushes the added ones: the number of occurrences of an
    identity in [resultsFixed] afterwards is what was there, minus the
    removals of it (not below zero), plus the additions of it.  So a result
    is struck through afterwards exactly when that number is positive: an
    added identity always is, and an identity fixed twice and removed once
    still is. *)
Theorem spliceResultsFixed_counts
    (active : bool) (removed added : list string) (s : t) (result : Result.t) :
  ∃ s',
    onMessage active (message (Command.spliceResultsFixed removed added)) s = Returned s'
    ∧ (∀ id, count_occ string_dec (resultsFixed s') id
             = (count_occ string_dec (resultsFixed s) id
                - count_occ string_dec removed id
                + count_occ string_dec added id)%nat)
    ∧ (ResultTableStore.isLineThrough s' result = true
       ↔ (0 < count_occ string_dec (resultsFixed s) (ResultTableStore.id_key result)
              - count_occ string_dec removed (ResultTableStore.id_key result)
              + count_occ string_dec added (ResultTableStore.id_key result))%nat)
    ∧ (ResultTableStore.id_key result ∈ added →
       ResultTableStore.isLineThrough s' result = true).
Proof.
  eexists. split; [reflexivity |].
  assert (∀ id, count_occ string_dec
                  (resultsFixed
                     (set_resultsFixed
                        (foldl (fun (fixed : list string) x => fixed ++ [x])
                           (foldl (fun (fixed : list string) x => remove_first x fixed)
                              (resultsFixed s) removed) added) s)) id
                = (count_occ string_dec (resultsFixed s) id
                   - count_occ string_dec removed id
                   + count_occ string_dec added id)%nat) as Hcount.
  { intros id. simpl. by rewrite count_push_all, count_remove_all. }
  split; [exact Hcount |].
  assert (∀ l k, bool_decide (k ∈ l) = true ↔ (0 < count_occ string_dec l k)%nat) as Hin.
  { intros l k. rewrite bool_decide_eq_true, list_elem_of_In. apply count_occ_In. }
  split.
  - unfold ResultTableStore.isLineThrough. by rewrite Hin, Hcount.
  - intros Hadded. unfold ResultTableStore.isLineThrough. rewrite Hin, Hcount.
    apply list_elem_of_In, (count_occ_In string_dec) in Hadded. lia.
Qed.

End Messages.

(** ** Lists *)

Lemma filter_all {A : Type} (p : A → bool) (l : list A) :
  (∀ x, x ∈ l → p x = true) → List.filter p l = l.
Proof.
  induction l as [| x rest IH]; intros Hall; simpl; [done |].
  rewrite (Hall x) by apply list_elem_of_here. f_equal.
  apply IH. intros y Hy. by apply Hall, list_elem_of_further.
Qed.

Lemma filter_none {A : Type} (p : A → bool) (l : list A) :
  (∀ x, x ∈ l → p x = false) → List.filter p l = [].
Proof.
  induction l as [| x rest IH]; intros Hall; simpl; [done |].
  rewrite (Hall x) by apply list_elem_of_here.
  apply IH. intros y Hy. by apply Hall, list_elem_of_further.
Qed.

(** ** The filter and the triage status in the table *)

Section FilterMore.
Context `{Js.Engine} `{IndexStore.Imports}.
Import IndexStore Notions ResultTableStore.

(** What a filter that exists accepts. *)
Lemma filter_Some_spec src accepts :
  filter src = Some accepts →
  ∀ result, accepts result = true ↔ passes_on_all_columns src result.
Proof.
  unfold filter. intros Hfilter result.
  destruct (filtersRow src !! "Level") as [L |] eqn:HL; [| done].
  destruct (filtersRow src !! "Baseline") as [B |] eqn:HB; [| done].
  destruct (filtersRow src !! "Suppression") as [S |] eqn:HS; [| done].
  injection Hfilter as <-. cbn beta zeta.
  unfold passes_on_all_columns, passes_row_filters.
  rewrite HL, HB, HS, <- keyword_clause_spec.
  repeat case_bool_decide; simpl;
    rewrite ?mapToList_elem in *; split;
    try done; try (intros [(? & ? & ? & ? & ? & ? & ? & ? & ?) _]; simplify_eq; done).
  - intros Hkw. split; [| done]. by exists L, B, S.
  - by intros [_ Hkw].
Qed.

Lemma filter_is_Some src :
  is_Some (filter src)
  ↔ is_Some (filtersRow src !! "Level") ∧ is_Some (filtersRow src !! "Baseline")
    ∧ is_Some (filtersRow src !! "Suppression").
Proof.
  unfold filter.
  destruct (filtersRow src !! "Level"), (filtersRow src !! "Baseline"),
    (filtersRow src !! "Suppression"); split; try (intros [? ?]; done);
    try (intros ([? ?] & [? ?] & [? ?]); done); eauto.
Qed.

(** X8. The text of the ['Status'] column is the triage status that the
    table store reports for the result: [TP], [FP], or a dash for
    ['unchecked'].  Both read the triage map under the JSON text of the
    identity of the result, so a status set under that key is the one
    reported, and a status set under another key changes neither. *)
Theorem Status_column_shows_getResultStatus
    (src : IndexStore.t) (result : Result.t) (col : Column.t) :
  col ∈ columnsOptional src →
  Column.name col = "Status" →
  Column.toString col result
  = match ResultTableStore.getResultStatus src result with
    | true_positive => "TP"
    | false_positive => "FP"
    | unchecked => Js.emdash
    end
  ∧ (∀ status,
       ResultTableStore.getResultStatus
         (IndexStore.setResultStatus (id_key result) status src) result = status)
  ∧ (∀ other status,
       other ≠ id_key result →
       ResultTableStore.getResultStatus
         (IndexStore.setResultStatus other status src) result
       = ResultTableStore.getResultStatus src result).
Proof.
  intros Hcol Hname. split; [| split].
  - unfold columnsOptional in Hcol.
    repeat (apply elem_of_cons in Hcol as [-> | Hcol]; [try discriminate Hname |]);
      [| by apply elem_of_nil in Hcol].
    simpl. unfold ResultTableStore.getResultStatus.
    by destruct (resultStatuses src !! id_key result) as [[] |].
  - intros status. unfold ResultTableStore.getResultStatus, IndexStore.setResultStatus.
    simpl. by rewrite lookup_insert_eq.
  - intros other status Hne. unfold ResultTableStore.getResultStatus, IndexStore.setResultStatus.
    simpl. by rewrite lookup_insert_ne.
Qed.

Lemma label_visible_all_visible (record : gmap string Visibility) value :
  label_visible ((fun _ : Visibility => visible) <$> record) value
  ↔ label_known record value.
Proof.
  unfold label_visible, label_known. split.
  - intros (label & Hflag & Hlower). exists label. split; [| done].
    rewrite lookup_fmap in Hflag. destruct (record !! label); [by eauto | done].
  - intros (label & [flag Hflag] & Hlower). exists label. split; [| done].
    by rewrite lookup_fmap, Hflag.
Qed.

Lemma iter_setState_frame n s :
  keywords (Nat.iter n setState s) = keywords s
  ∧ filtersColumn (Nat.iter n setState s) = filtersColumn s
  ∧ filtersRow (Nat.iter n setState s) = filtersRow s.
Proof. induction n as [| n IH]; simpl; [done | exact IH]. Qed.

Lemma clearFilters_frame s :
  keywords (clearFilters s) = EmptyString
  ∧ filtersColumn (clearFilters s) = filtersColumn s
  ∧ filtersRow (clearFilters s)
    = (fun values : gmap string Visibility => (fun _ : Visibility => visible) <$> values)
        <$> filtersRow s.
Proof.
  unfold clearFilters.
  destruct (iter_setState_frame (observed_changes s)
              (set_filtersRow
                 ((fun values : gmap string Visibility =>
                     (fun _ : Visibility => visible) <$> values) <$> filtersRow s)
                 (set_keywords EmptyString s))) as (-> & -> & ->).
  done.
Qed.

Lemma hidden_flags_all_visible (values : gmap string Visibility) :
  hidden_flags ((fun _ : Visibility => visible) <$> values) = 0%nat.
Proof.
  unfold hidden_flags. rewrite filter_none; [done |].
  intros [label flag] Hin%elem_of_map_to_list. rewrite lookup_fmap in Hin.
  simpl. destruct (values !! label); simpl in Hin; [by injection Hin as <- | done].
Qed.

(** After [clearFilters] no write of a second [clearFilters] changes a
    flag. *)
Lemma observed_changes_cleared s : observed_changes (clearFilters s) = 0%nat.
Proof.
  destruct (clearFilters_frame s) as (_ & _ & Hrows).
  unfold observed_changes. rewrite Hrows. unfold observed_categories. simpl.
  rewrite !lookup_fmap.
  assert (∀ found : option (gmap string Visibility),
            hidden_flags
              (default ∅ ((fun values : gmap string Visibility =>
                             (fun _ : Visibility => visible) <$> values) <$> found))
            = 0%nat) as Hnone.
  { intros [values |]; simpl; [apply hidden_flags_all_visible | done]. }
  by rewrite !Hnone.
Qed.

Lemma clearFilters_twice s : clearFilters (clearFilters s) = clearFilters s.
Proof.
  unfold clearFilters at 1. rewrite observed_changes_cleared. simpl.
  destruct (clearFilters_frame s) as (Hkeywords & Hcolumns & Hrows).
  destruct (clearFilters s) as [b d rs dc w l rf sel co kw fr fc tab pt po] eqn:E.
  simpl in *. subst kw fr. unfold set_filtersRow, set_keywords. simpl. f_equal.
  rewrite <- map_fmap_compose.
  apply map_fmap_ext. intros category values _. simpl.
  rewrite <- map_fmap_compose. by apply map_fmap_ext.
Qed.

(** X9. [clearFilters] empties the key words and makes every flag of every
    category of row filters ['visible'], keeping the labels: no label is
    added or removed, and the column flags are not touched.  Afterwards the
    filter accepts exactly the results whose level, baseline state and
    suppression state are labels of their categories, whatever the key
    words and the flags were.  Clearing twice is clearing once. *)
Theorem clearFilters_shows_every_known_value (s : IndexStore.t) :
  keywords (clearFilters s) = EmptyString
  ∧ filtersColumn (clearFilters s) = filtersColumn s
  ∧ (∀ category,
       filtersRow (clearFilters s) !! category
       = (fun values : gmap string Visibility => (fun _ : Visibility => visible) <$> values)
           <$> filtersRow s !! category)
  ∧ clearFilters (clearFilters s) = clearFilters s
  ∧ (∀ Level Baseline Suppression,
       filtersRow s !! "Level" = Some Level →
       filtersRow s !! "Baseline" = Some Baseline →
       filtersRow s !! "Suppression" = Some Suppression →
       ∃ accepts,
         filter (clearFilters s) = Some accepts
         ∧ ∀ result,
             accepts result = true
             ↔ label_known Level (default EmptyString (Result.level result))
               ∧ label_known Baseline (default EmptyString (Result.baselineState result))
               ∧ label_known Suppression (default EmptyString (Result._suppression result))).
Proof.
  pose proof (clearFilters_frame s) as (Hkeywords & Hcolumns & Hrows).
  split; [done |]. split; [done |]. split; [| split].
  - intros category. by rewrite Hrows, lookup_fmap.
  - apply clearFilters_twice.
  - intros L B S HL HB HS.
    assert (∀ category values, filtersRow s !! category = Some values →
              filtersRow (clearFilters s) !! category
              = Some ((fun _ : Visibility => visible) <$> values)) as Hcleared.
    { intros category values Hc. by rewrite Hrows, lookup_fmap, Hc. }
    destruct (filter (clearFilters s)) as [accepts |] eqn:Hfilter.
    2: { exfalso. assert (is_Some (filter (clearFilters s))) as [? ?]; [| congruence].
         apply filter_is_Some. rewrite (Hcleared _ _ HL), (Hcleared _ _ HB), (Hcleared _ _ HS).
         eauto. }
    exists accepts. split; [done |]. intros result.
    rewrite (filter_Some_spec _ _ Hfilter). unfold passes_on_all_columns, passes_row_filters.
    rewrite (Hcleared _ _ HL), (Hcleared _ _ HB), (Hcleared _ _ HS).
    split.
    + intros [(L' & B' & S' & EL & EB & ES & Hl & Hb & Hs) _]. simplify_eq.
      by rewrite !label_visible_all_visible in *.
    + intros (Hl & Hb & Hs). split; [| left].
      * eexists _, _, _. rewrite !label_visible_all_visible. done.
      * unfold filterKeywords. rewrite Hkeywords.
        rewrite (Js.toLowerCase_white_space EmptyString) by done. done.
Qed.

Lemma label_visible_insert (record : gmap string Visibility) value flag x :
  (label_visible (<[value := hidden]> record) x → label_visible record x)
  ∧ (label_visible record x → label_visible (<[value := visible]> record) x)
  ∧ (label_visible (<[value := hidden]> record) x
     → label_visible (<[value := flag]> record) x).
Proof.
  unfold label_visible. split; [| split].
  - intros (label & Hflag & Hlower). exists label. split; [| done].
    apply lookup_insert_Some in Hflag as [[_ ?] | [_ ?]]; done.
  - intros (label & Hflag & Hlower). exists label. split; [| done].
    destruct (decide (value = label)) as [-> | Hne];
      [by rewrite lookup_insert_eq | by rewrite lookup_insert_ne].
  - intros (label & Hflag & Hlower). exists label. split; [| done].
    apply lookup_insert_Some in Hflag as [[_ ?] | [Hne ?]]; [done |].
    by rewrite lookup_insert_ne.
Qed.

Lemma filter_length_le (f g : Result.t → bool) (l : list Result.t) :
  (∀ x, f x = true → g x = true) →
  (length (List.filter f l) ≤ length (List.filter g l))%nat.
Proof.
  intros Hfg. induction l as [| x rest IH]; simpl; [done |].
  destruct (f x) eqn:Hf.
  - rewrite (Hfg x Hf). simpl. lia.
  - destruct (g x); simpl; lia.
Qed.

(** Row filters that show at least as much let at least as much
    through. *)
Lemma passes_row_filters_mono (s1 s2 : IndexStore.t) result :
  (∀ name (R : gmap string Visibility) x,
     filtersRow s1 !! name = Some R → label_visible R x →
     ∃ R', filtersRow s2 !! name = Some R' ∧ label_visible R' x) →
  passes_row_filters s1 result → passes_row_filters s2 result.
Proof.
  intros Hstep (L & B & S & HL & HB & HS & Hl & Hb & Hs).
  destruct (Hstep _ _ _ HL Hl) as (L' & HL' & Hl').
  destruct (Hstep _ _ _ HB Hb) as (B' & HB' & Hb').
  destruct (Hstep _ _ _ HS Hs) as (S' & HS' & Hs').
  by exists L', B', S'.
Qed.

Lemma with_row_flag_filter_exists category value flag (s : IndexStore.t) :
  is_Some (filter s) → is_Some (filter (with_row_flag category value flag s)).
Proof.
  rewrite !filter_is_Some. unfold with_row_flag. simpl.
  intros (HL & HB & HS).
  repeat split; rewrite lookup_alter; case_decide; try done;
    subst; by apply fmap_is_Some.
Qed.

(** X10. Hiding a value of a row filter never lets a result through that
    was rejected, and showing one never rejects a result that was let
    through: for every store with a filter, category and value, the filter
    with the flag off accepts no more than the current one, which accepts
    no more than the filter with the flag on, and so the number of results
    of any list that pass goes down, or up, accordingly. *)
Theorem row_flag_filter_monotone
    (category value : string) (s : IndexStore.t) (accepts : Result.t → bool) :
  filter s = Some accepts →
  ∃ accepts_off accepts_on,
    filter (with_row_flag category value hidden s) = Some accepts_off
    ∧ filter (with_row_flag category value visible s) = Some accepts_on
    ∧ (∀ result, accepts_off result = true → accepts result = true)
    ∧ (∀ result, accepts result = true → accepts_on result = true)
    ∧ (∀ results,
         (length (List.filter accepts_off results) ≤ length (List.filter accepts results)
          ≤ length (List.filter accepts_on results))%nat).
Proof.
  intros Hfilter.
  destruct (with_row_flag_filter_exists category value hidden s) as [off Hoff]; [by eauto |].
  destruct (with_row_flag_filter_exists category value visible s) as [on Hon]; [by eauto |].
  exists off, on. split; [done |]. split; [done |].
  assert (∀ result, off result = true → accepts result = true) as Hdown.
  { intros result. rewrite (filter_Some_spec _ _ Hoff), (filter_Some_spec _ _ Hfilter).
    intros [Hrows Hkw]. split; [| exact Hkw].
    revert Hrows. apply passes_row_filters_mono.
    intros name R x HR Hx. unfold with_row_flag in HR. simpl in HR.
    rewrite lookup_alter in HR. case_decide as Hname; [| by eauto].
    subst. destruct (filtersRow s !! name) as [values |]; [| done].
    injection HR as <-. exists values. split; [done |].
    by apply (label_visible_insert values value hidden). }
  assert (∀ result, accepts result = true → on result = true) as Hup.
  { intros result. rewrite (filter_Some_spec _ _ Hon), (filter_Some_spec _ _ Hfilter).
    intros [Hrows Hkw]. split; [| exact Hkw].
    revert Hrows. apply passes_row_filters_mono.
    intros name R x HR Hx. unfold with_row_flag. simpl.
    rewrite lookup_alter. case_decide as Hname; [| by eauto].
    subst. rewrite HR. simpl. eexists. split; [done |].
    by apply (label_visible_insert R value hidden). }
  split; [done |]. split; [done |].
  intros results. split; by apply filter_length_le.
Qed.

End FilterMore.

Section Blank.
Context `{Js.Engine} `{IndexStore.Imports}.
Import IndexStore Notions ResultTableStore.

Lemma split_go_all_space cs : ∀ in_sep,
  forallb Js.is_space cs = true →
  Forall (fun piece => piece = EmptyString) (Js.split_go cs EmptyString in_sep).
Proof.
  induction cs as [| char cs IH]; intros in_sep; simpl.
  - intros _. by apply Forall_singleton.
  - intros [-> Hcs]%andb_true_iff.
    destruct in_sep; [by apply IH |]. apply Forall_cons. split; [done | by apply IH].
Qed.

(** X11. Key words that are empty or all white space (any character of
    the class [\s], the no-break space and the line separators included)
    are no key words: the filter then has no key word, and it accepts
    exactly the results that the three row filters let through. *)
Theorem blank_keywords_filter_nothing (src : IndexStore.t) :
  Js.all_space (keywords src) = true →
  filterKeywords src = []
  ∧ ∀ accepts, filter src = Some accepts →
      ∀ result, accepts result = true ↔ passes_row_filters src result.
Proof.
  intros Hblank.
  assert (filterKeywords src = []) as Hnone.
  { unfold filterKeywords, Js.split_spaces.
    rewrite Js.toLowerCase_white_space by done.
    pose proof (split_go_all_space (Js.chars (keywords src)) false Hblank) as Hall.
    induction Hall as [| piece rest -> _ IH]; simpl; done. }
  split; [done |]. intros accepts Hfilter result.
  rewrite (filter_Some_spec _ _ Hfilter). unfold passes_on_all_columns.
  rewrite Hnone. split; [by intros [? _] | intros ?; split; [done | by left]].
Qed.

End Blank.

(** ** The order of the columns *)

Section Order.
Context `{Js.Engine}.
Import IndexStore Notions ResultTableStore.

Lemma named_columns_omap order (unordered : list Column.t) : ∀ acc,
  foldl (fun ordered colName =>
           match List.find (fun c => String.eqb (Column.name c) colName) unordered with
           | Some col => ordered ++ [col]
           | None => ordered
           end) acc order
  = acc ++ omap (fun colName =>
                   List.find (fun c => String.eqb (Column.name c) colName) unordered) order.
Proof.
  induction order as [| n rest IH]; intros acc; simpl; [by rewrite app_nil_r |].
  rewrite IH. destruct (List.find _ unordered); [by rewrite <- app_assoc | done].
Qed.

Lemma find_by_name_Some (unordered : list Column.t) col :
  NoDup (List.map Column.name unordered) → col ∈ unordered →
  List.find (fun c => String.eqb (Column.name c) (Column.name col)) unordered = Some col.
Proof.
  induction unordered as [| d rest IH]; simpl; intros Hnd Hin;
    [by apply elem_of_nil in Hin |].
  apply NoDup_cons in Hnd as [Hd Hrest].
  destruct (String.eqb_spec (Column.name d) (Column.name col)) as [Heq | Hne].
  - apply elem_of_cons in Hin as [-> | Hin]; [done |].
    destruct Hd. rewrite Heq. apply list_elem_of_In, in_map. by apply list_elem_of_In.
  - apply elem_of_cons in Hin as [-> | Hin]; [done | by apply IH].
Qed.

Lemma find_by_name_None (unordered : list Column.t) n :
  n ∉ List.map Column.name unordered →
  List.find (fun c => String.eqb (Column.name c) n) unordered = None.
Proof.
  intros Hn. destruct (List.find _ unordered) as [c |] eqn:Hfind; [| done].
  apply find_some in Hfind as [Hin Hname%String.eqb_eq].
  destruct Hn. rewrite <- Hname. by apply list_elem_of_In, in_map.
Qed.

(** The names that the first loop of [visibleColumns] lists. *)
Lemma named_columns_names (unordered : list Column.t) : ∀ order,
  NoDup (List.map Column.name unordered) →
  List.map Column.name
    (omap (fun colName =>
             List.find (fun c => String.eqb (Column.name c) colName) unordered) order)
  = List.filter (fun n => bool_decide (n ∈ List.map Column.name unordered)) order.
Proof.
  intros order Hnd. induction order as [| n rest IH]; simpl; [done |].
  case_bool_decide as Hn.
  - apply list_elem_of_In, in_map_iff in Hn as (col & Hname & Hcol%list_elem_of_In).
    pose proof (find_by_name_Some unordered col Hnd Hcol) as Hfind.
    rewrite Hname in Hfind. rewrite Hfind. simpl. f_equal; [exact Hname | exact IH].
  - rewrite find_by_name_None by done. exact IH.
Qed.

(** The second loop of [visibleColumns] on columns that are distinct
    objects: the columns that [acc] does not have are appended. *)
Lemma appended_columns_filter (rest : list Column.t) : ∀ acc,
  NoDup (List.map Column.oid rest) →
  foldl (fun ordered col =>
           if includes_column ordered col then ordered else ordered ++ [col]) acc rest
  = acc ++ List.filter (fun col => negb (includes_column acc col)) rest.
Proof.
  induction rest as [| col rest IH]; intros acc Hnd; simpl; [by rewrite app_nil_r |].
  apply NoDup_cons in Hnd as [Hcol Hnd].
  destruct (includes_column acc col) eqn:Hincl; simpl; [by apply IH |].
  rewrite IH by done. rewrite <- app_assoc. simpl. do 2 f_equal.
  apply filter_ext_in. intros c Hc. f_equal.
  unfold includes_column. rewrite existsb_app. simpl.
  destruct (Nat.eqb_spec (Column.oid col) (Column.oid c)) as [Heq | Hne];
    [| by rewrite !orb_false_r].
  destruct Hcol. rewrite Heq. by apply list_elem_of_In, in_map.
Qed.

Lemma dynamic_oids (keys : list string) : ∀ n,
  List.map Column.oid
    (imap (fun i key =>
             {| Column.oid := n + i; Column.name := key; Column.width := 150;
                Column.toString := property_text key; Column.toNumber := None |}) keys)
  = seq n (length keys).
Proof.
  induction keys as [| k rest IH]; intros n; [done |].
  rewrite imap_cons. simpl. f_equal; [lia |].
  rewrite <- (IH (S n)). f_equal. apply imap_ext. intros i x _. simpl. f_equal. lia.
Qed.

Lemma columns_oids src :
  List.map Column.oid (columns src) = seq 0 (7 + length (dynamicColumns src)).
Proof.
  unfold columns, columnsPermanent. rewrite app_nil_l, map_app.
  rewrite (seq_app 7 (length (dynamicColumns src)) 0).
  f_equal. apply dynamic_oids.
Qed.

Lemma NoDup_map_filter {A B : Type} (f : A → B) (p : A → bool) (l : list A) :
  NoDup (List.map f l) → NoDup (List.map f (List.filter p l)).
Proof.
  induction l as [| x rest IH]; simpl; [done |].
  intros [Hx Hrest]%NoDup_cons. destruct (p x); simpl; [| by apply IH].
  apply NoDup_cons. split; [| by apply IH].
  intros Hin. apply Hx.
  apply list_elem_of_In, in_map_iff in Hin as (y & Hy & Hin%filter_In).
  apply list_elem_of_In, in_map_iff. exists y. tauto.
Qed.

Lemma unorderedColumns_oids ts src :
  NoDup (List.map Column.oid (unorderedColumns ts src)).
Proof.
  pose proof (columns_oids src) as Hoids.
  assert (NoDup (List.map Column.oid (columns src))) as Hnd
    by (rewrite Hoids; apply NoDup_seq).
  unfold columns, columnsPermanent in Hnd. rewrite app_nil_l, map_app in Hnd.
  apply NoDup_app in Hnd as (Hopt & Hdisjoint & Hdyn).
  unfold unorderedColumns, columnsPermanent. cbn zeta.
  change (List.filter _ []) with (@nil Column.t). rewrite app_nil_l, map_app.
  apply NoDup_app. repeat split; [by apply NoDup_map_filter | | by apply NoDup_map_filter].
  intros o Ho Ho'.
  apply (Hdisjoint o).
  - apply list_elem_of_In, in_map_iff in Ho as (c & <- & Hc%filter_In).
    apply list_elem_of_In, in_map. tauto.
  - apply list_elem_of_In, in_map_iff in Ho' as (c & <- & Hc%filter_In).
    apply list_elem_of_In, in_map. tauto.
Qed.

Lemma map_filter_name (p : string → bool) (l : list Column.t) :
  List.map Column.name (List.filter (fun col => p (Column.name col)) l)
  = List.filter p (List.map Column.name l).
Proof.
  induction l as [| c rest IH]; simpl; [done |].
  destruct (p (Column.name c)); simpl; by rewrite IH.
Qed.

(** The names of the visible columns, in order. *)
Lemma visibleColumns_names (ts : ResultTableStore.t) (src : IndexStore.t) :
  NoDup (List.map Column.name (unorderedColumns ts src)) →
  List.map Column.name (visibleColumns ts src)
  = List.filter
      (fun n => bool_decide (n ∈ List.map Column.name (unorderedColumns ts src)))
      (columnOrder src)
    ++ List.filter (fun n => negb (bool_decide (n ∈ columnOrder src)))
         (List.map Column.name (unorderedColumns ts src)).
Proof.
  intros Hnames. unfold visibleColumns. cbn zeta.
  set (U := unorderedColumns ts src) in *.
  destruct (columnOrder src) as [| n order] eqn:Horder.
  { change (List.filter _ []) with (@nil string). rewrite app_nil_l.
    generalize (List.map Column.name U). intros names.
    rewrite (filter_ext _ (fun _ => true)).
    - induction names as [| m rest IH]; simpl; [done | by f_equal].
    - intros m. by rewrite bool_decide_eq_false_2 by apply not_elem_of_nil. }
  rewrite named_columns_omap, app_nil_l.
  rewrite appended_columns_filter by apply unorderedColumns_oids.
  rewrite map_app, named_columns_names by done. f_equal.
  rewrite <- map_filter_name. f_equal.
  apply filter_ext_in. intros col Hcol%list_elem_of_In. f_equal.
  apply eq_true_iff_eq. rewrite bool_decide_eq_true.
  unfold includes_column. rewrite existsb_exists. split.
  - intros (c & Hc & Hoid%Nat.eqb_eq).
    apply list_elem_of_In, list_elem_of_omap in Hc as (m & Hm & Hfind).
    apply find_some in Hfind as [Hin Hname%String.eqb_eq].
    assert (c = col) as ->.
    { apply (columns_oid_inj src); [| | done].
      - apply list_elem_of_In in Hin. by apply unorderedColumns_elem in Hin as [? _].
      - by apply unorderedColumns_elem in Hcol as [? _]. }
    by rewrite Hname.
  - intros Hin. exists col. split; [| by apply Nat.eqb_eq].
    apply list_elem_of_In, list_elem_of_omap. exists (Column.name col).
    split; [done | by apply find_by_name_Some].
Qed.

(** X12. When the visible columns have distinct names, their order is the
    column order restricted to them, followed by the visible columns that
    the column order does not name, in the order of the registry: a name
    of the column order that is no visible column is skipped, and with an
    empty column order the registry order is kept. *)
Theorem visibleColumns_follow_columnOrder (ts : ResultTableStore.t) (src : IndexStore.t) :
  NoDup (List.map Column.name (unorderedColumns ts src)) →
  List.map Column.name (visibleColumns ts src)
  = List.filter
      (fun n => bool_decide (n ∈ List.map Column.name (unorderedColumns ts src)))
      (columnOrder src)
    ++ List.filter (fun n => negb (bool_decide (n ∈ columnOrder src)))
         (List.map Column.name (unorderedColumns ts src)).
Proof. apply visibleColumns_names. Qed.

(** The two [splice] of [moveColumn]: what is taken out and where it is
    put back. *)
Lemma moveColumn_Some ts fromIndex toIndex src s' :
  moveColumn ts fromIndex toIndex src = Some s' →
  let names := List.map Column.name (visibleColumns ts src) in
  ∃ i moved k,
    names !! i = Some moved
    ∧ (k ≤ length (take i names ++ drop (S i) names))%nat
    ∧ s' = setColumnOrder
             (take k (take i names ++ drop (S i) names)
              ++ moved :: drop k (take i names ++ drop (S i) names)) src
    ∧ ((0 ≤ fromIndex)%Z → i = Z.to_nat fromIndex)
    ∧ ((0 ≤ toIndex < Z.of_nat (length names))%Z → k = Z.to_nat toIndex).
Proof.
  unfold moveColumn. cbn zeta.
  set (names := List.map Column.name (visibleColumns ts src)).
  unfold Js.splice at 1. cbn zeta.
  set (len := Z.of_nat (length names)).
  set (start := if (fromIndex <? 0)%Z then Z.max (len + fromIndex) 0 else Z.min fromIndex len).
  set (i := Z.to_nat start).
  assert (0 ≤ start ≤ len)%Z as Hstart by (subst start len; destruct (Z.ltb_spec fromIndex 0); lia).
  destruct (take (Z.to_nat (Z.min (Z.max 1 0) (len - start))) (drop i names))
    as [| moved removed] eqn:Htake; [done |].
  intros [= <-].
  assert (start < len)%Z as Hlt.
  { destruct (Z.eq_dec start len) as [Heq | Hne]; [| lia].
    rewrite Heq, Z.sub_diag in Htake. simpl in Htake. discriminate. }
  assert (names !! i = Some moved) as Hmoved.
  { assert (Z.to_nat (Z.min (Z.max 1 0) (len - start)) = 1%nat) as E by lia.
    rewrite E in Htake. destruct (drop i names) as [| x rest] eqn:Hdrop; [done |].
    simpl in Htake. injection Htake as -> _.
    rewrite <- (Nat.add_0_r i), <- lookup_drop, Hdrop. done. }
  assert (Z.to_nat (Z.min (Z.max 1 0) (len - start)) = 1%nat) as E by lia.
  rewrite E. replace (i + 1)%nat with (S i) by lia.
  set (rest := take i names ++ drop (S i) names).
  set (lenr := Z.of_nat (length rest)).
  set (startr := if (toIndex <? 0)%Z then Z.max (lenr + toIndex) 0 else Z.min toIndex lenr).
  assert (0 ≤ startr ≤ lenr)%Z as Hstartr by (subst startr lenr; destruct (Z.ltb_spec toIndex 0); lia).
  assert (Z.to_nat (Z.min (Z.max 0 0) (lenr - startr)) = 0%nat) as E0 by lia.
  rewrite E0, Nat.add_0_r.
  exists i, moved, (Z.to_nat startr).
  split; [done |]. split; [clear -Hstartr; subst lenr rest; lia |]. split; [done |]. split.
  - intros Hfrom. subst i start. destruct (Z.ltb_spec fromIndex 0); [lia |].
    f_equal. lia.
  - intros Hto. subst startr. destruct (Z.ltb_spec toIndex 0); [lia |].
    f_equal. assert (lenr = len - 1)%Z; [| lia].
    subst lenr rest len. rewrite length_app, length_take, length_drop.
    apply lookup_lt_Some in Hmoved. lia.
Qed.

(** X13. [moveColumn] takes a column out of the visible columns and puts
    it back: it has an effect exactly when there is a column at
    [fromIndex] (an index from the end when negative).  The column order
    that it stores is then a rearrangement of the names of the visible
    columns and no other field changes; with [fromIndex] equal to
    [toIndex], in range, it is those names as they were; and when the
    visible columns have distinct names, the visible columns afterwards
    are in exactly the stored order. *)
Theorem moveColumn_reorders_the_visible_columns
    (ts : ResultTableStore.t) (fromIndex toIndex : Z) (src : IndexStore.t) :
  let names := List.map Column.name (visibleColumns ts src) in
  (is_Some (moveColumn ts fromIndex toIndex src)
   ↔ names ≠ [] ∧ (fromIndex < Z.of_nat (length names))%Z)
  ∧ ∀ s', moveColumn ts fromIndex toIndex src = Some s' →
      columnOrder s' ≡ₚ names
      ∧ s' = setColumnOrder (columnOrder s') src
      ∧ ((0 ≤ fromIndex)%Z → fromIndex = toIndex → columnOrder s' = names)
      ∧ (NoDup (List.map Column.name (unorderedColumns ts src)) →
         List.map Column.name (visibleColumns ts s') = columnOrder s').
Proof.
  cbn zeta. split.
  - unfold moveColumn, Js.splice. cbn zeta.
    set (names := List.map Column.name (visibleColumns ts src)).
    set (len := Z.of_nat (length names)).
    set (start := if (fromIndex <? 0)%Z then Z.max (len + fromIndex) 0 else Z.min fromIndex len).
    assert (0 ≤ start ≤ len)%Z as Hstart
      by (subst start len; destruct (Z.ltb_spec fromIndex 0); lia).
    destruct (take (Z.to_nat (Z.min (Z.max 1 0) (len - start))) (drop (Z.to_nat start) names))
      as [| moved removed] eqn:Htake.
    + split; [intros [? ?]; done |]. intros [Hne Hlt]. exfalso.
      assert (start < len)%Z as Hs.
      { subst start. destruct (Z.ltb_spec fromIndex 0); [| lia].
        destruct names; [done |]. subst len. simpl length in *. lia. }
      assert (Z.to_nat (Z.min (Z.max 1 0) (len - start)) = 1%nat) as E by lia.
      rewrite E in Htake.
      destruct (drop (Z.to_nat start) names) as [| x rest] eqn:Hdrop; [| done].
      apply (f_equal length) in Hdrop. rewrite length_drop in Hdrop. simpl in Hdrop.
      subst len. lia.
    + split; [| by eauto]. intros _.
      assert (start < len)%Z as Hs.
      { destruct (Z.eq_dec start len) as [Heq | Hne]; [| lia].
        rewrite Heq, Z.sub_diag in Htake. simpl in Htake. discriminate. }
      split.
      { intros Hnil. assert (len = 0%Z) by (subst len; by rewrite Hnil). lia. }
      subst start. destruct (Z.ltb_spec fromIndex 0); lia.
  - intros s' Hmove.
    destruct (moveColumn_Some _ _ _ _ _ Hmove) as (i & moved & k & Hmoved & Hk & -> & Hfrom & Hto).
    set (names := List.map Column.name (visibleColumns ts src)) in *.
    set (rest := take i names ++ drop (S i) names) in *.
    pose proof (take_drop_middle names i moved Hmoved) as Hmid.
    assert (take k rest ++ moved :: drop k rest ≡ₚ names) as Hperm.
    { transitivity (moved :: rest).
      - rewrite <- Permutation_middle. by rewrite take_drop.
      - rewrite <- Hmid. subst rest. apply Permutation_middle. }
    simpl. split; [exact Hperm |]. split; [done |]. split.
    + intros Hpos <-. specialize (Hfrom Hpos).
      assert (k = i) as ->.
      { rewrite Hto, Hfrom; [done |]. apply lookup_lt_Some in Hmoved. lia. }
      assert (i = length (take i names)) as Hlen.
      { rewrite length_take. apply lookup_lt_Some in Hmoved. lia. }
      rewrite <- Hmid. subst rest.
      rewrite take_app_length' by done. by rewrite drop_app_length' by done.
    + intros Hnd.
      pose proof (visibleColumns_names ts
                    (setColumnOrder (take k rest ++ moved :: drop k rest) src)) as Horder.
      change (unorderedColumns ts (setColumnOrder (take k rest ++ moved :: drop k rest) src))
        with (unorderedColumns ts src) in Horder.
      rewrite (Horder Hnd). simpl columnOrder.
      assert (∀ n, n ∈ names ↔ n ∈ List.map Column.name (unorderedColumns ts src)) as Hsame.
      { intros n. subst names. rewrite !list_elem_of_In, !in_map_iff.
        split; intros (c & ? & Hc); exists c; split; try done;
          by apply list_elem_of_In, visibleColumns_elem, list_elem_of_In. }
      rewrite filter_all, filter_none, app_nil_r; [done | |].
      * intros n Hn. apply negb_false_iff, bool_decide_eq_true.
        rewrite Hperm. by apply Hsame.
      * intros n Hn. apply bool_decide_eq_true. apply Hsame. by rewrite <- Hperm.
Qed.

End Order.

(** ** Moving the selection with the keys *)

Section Navigation.
Context `{IndexStore.Imports}.
Import IndexStore Notions Table.

Lemma indexOf_from_found before row after : ∀ i,
  (∀ b, b ∈ before → Row_is b row = false) →
  indexOf_from (before ++ row :: after) (Some row) i = (i + Z.of_nat (length before))%Z.
Proof.
  induction before as [| b rest IH]; intros i Hbefore; simpl.
  - rewrite Row_is_refl. lia.
  - rewrite (Hbefore b) by apply list_elem_of_here.
    rewrite IH; [lia |]. intros b' Hb'. by apply Hbefore, list_elem_of_further.
Qed.

Lemma indexOf_from_missing rows selected : ∀ i,
  (∀ row, row ∈ rows → selection_is (Some row) selected = false) →
  indexOf_from rows selected i = (-1)%Z.
Proof.
  induction rows as [| row rest IH]; intros i Hmissing; [done |].
  change (indexOf_from (row :: rest) selected i)
    with (if selection_is (Some row) selected then i
          else indexOf_from rest selected (i + 1)%Z).
  rewrite (Hmissing row) by apply list_elem_of_here.
  apply IH. intros row' Hrow'. by apply Hmissing, list_elem_of_further.
Qed.

Lemma at_middle {A : Type} (before : list A) (x : A) (after : list A) :
  Js.at_ (before ++ x :: after) (Z.of_nat (length before)) = Some x
  ∧ Js.at_ (before ++ x :: after) (Z.of_nat (length before) + 1) = head after
  ∧ Js.at_ (before ++ x :: after) (Z.of_nat (length before) - 1) = last before.
Proof.
  unfold Js.at_. split; [| split].
  - destruct (Z.ltb_spec (Z.of_nat (length before)) 0); [lia |].
    rewrite Nat2Z.id. by rewrite list_lookup_middle.
  - destruct (Z.ltb_spec (Z.of_nat (length before) + 1) 0); [lia |].
    replace (Z.to_nat (Z.of_nat (length before) + 1)) with (length before + 1)%nat by lia.
    rewrite lookup_app_r by lia.
    replace (length before + 1 - length before)%nat with 1%nat by lia.
    by destruct after.
  - destruct before as [| b rest] using rev_ind; [done |].
    rewrite length_app. simpl length.
    destruct (Z.ltb_spec (Z.of_nat (length rest + 1) - 1) 0); [lia |].
    replace (Z.to_nat (Z.of_nat (length rest + 1) - 1)) with (length rest) by lia.
    rewrite <- app_assoc. simpl. rewrite list_lookup_middle by done.
    by rewrite last_snoc.
Qed.

(** X14. With a rendered row selected, [ArrowDown] selects the row that
    follows it and [ArrowUp] the row that precedes it, through the
    selection box (so the reaction of the box runs); on the last row
    [ArrowDown], and on the first row [ArrowUp], leave the store exactly as
    it is; [Escape] empties the selection.  The three keys are handled;
    the selected row is found by its identity, at its first place among
    the rows. *)
Theorem arrows_move_to_the_neighbour_row
    (active : bool) (before : list Row) (row : Row) (after : list Row) (s : t) :
  selection s = Some row →
  (∀ b, b ∈ before → Row_is b row = false) →
  let rows := before ++ row :: after in
  (∀ next rest, after = next :: rest →
     onKeyDown active "ArrowDown" rows s = (true, selection_set active (Some next) s))
  ∧ (after = [] → onKeyDown active "ArrowDown" rows s = (true, s))
  ∧ (∀ front previous, before = front ++ [previous] →
       onKeyDown active "ArrowUp" rows s = (true, selection_set active (Some previous) s))
  ∧ (before = [] → onKeyDown active "ArrowUp" rows s = (true, s))
  ∧ (∃ s', onKeyDown active "Escape" rows s = (true, s') ∧ selection s' = None).
Proof.
  intros Hsel Hbefore. cbn zeta.
  assert (indexOf (before ++ row :: after) (selection s) = Z.of_nat (length before)) as Hindex.
  { unfold indexOf. rewrite Hsel, indexOf_from_found by done. lia. }
  destruct (at_middle before row after) as (Hat & Hnext & Hprev).
  assert (selection_set active (Some row) s = s) as Hsame.
  { unfold selection_set. by rewrite Hsel; simpl; rewrite Row_is_refl. }
  repeat split.
  - intros next rest ->. unfold onKeyDown. rewrite Hindex. simpl String.eqb. cbn iota.
    by rewrite Hnext.
  - intros ->. unfold onKeyDown. rewrite Hindex. simpl String.eqb. cbn iota.
    rewrite Hnext, Hat. simpl. by rewrite Hsame.
  - intros front previous ->. unfold onKeyDown. rewrite Hindex. simpl String.eqb. cbn iota.
    rewrite Hprev, last_snoc. done.
  - intros ->. unfold onKeyDown. rewrite Hindex. simpl String.eqb. cbn iota.
    rewrite Hprev, Hat. simpl. by rewrite Hsame.
  - eexists. split; [reflexivity |]. apply selection_set_None.
Qed.

(** X15. When the selected row is not among the rendered rows (or nothing
    is selected), [ArrowUp] and [ArrowDown] both select the first rendered
    row; with no row rendered they empty the selection.  A key other than
    the two arrows and [Escape] is not handled: the event goes on and the
    store is as it was. *)
Theorem keys_without_a_rendered_selection (active : bool) (rows : list Row) (s : t) :
  ((∀ row, row ∈ rows → selection_is (Some row) (selection s) = false) →
   onKeyDown active "ArrowDown" rows s = (true, selection_set active (head rows) s)
   ∧ onKeyDown active "ArrowUp" rows s = (true, selection_set active (head rows) s))
  ∧ (∀ key, key ≠ "ArrowUp" → key ≠ "ArrowDown" → key ≠ "Escape" →
            onKeyDown active key rows s = (false, s)).
Proof.
  split.
  - intros Hmissing. unfold onKeyDown, indexOf.
    rewrite indexOf_from_missing by done. simpl String.eqb. cbn iota.
    unfold Js.at_. simpl. by destruct rows.
  - intros key Hup Hdown Hescape. unfold onKeyDown.
    apply String.eqb_neq in Hup, Hdown, Hescape. by rewrite Hup, Hdown, Hescape.
Qed.

End Navigation.

(** ** What is saved and what comes back *)

Section Persistence.
Context `{Js.Engine} `{IndexStore.Imports}.
Import IndexStore Notions ResultTableStore.

Lemma register_key_prefix s key :
  dynamicColumns s `prefix_of` dynamicColumns (register_key s key).
Proof.
  unfold register_key. case_bool_decide; [done |]. cbn zeta.
  destruct (FiltersColumn.Columns _ !! key) as [[] |]; simpl;
    [| | destruct (Js.inherited key); simpl]; by apply prefix_app_r.
Qed.

Lemma extractDynamicColumns_prefix log s :
  dynamicColumns s `prefix_of` dynamicColumns (extractDynamicColumns log s).
Proof.
  unfold extractDynamicColumns. generalize (propertyKeys log). intros ks. revert s.
  induction ks as [| k rest IH]; intros s; simpl; [done |].
  etransitivity; [apply register_key_prefix | apply IH].
Qed.

Lemma logs_observer_dynamicColumns active s :
  dynamicColumns (logs_observer active s) = dynamicColumns s.
Proof.
  unfold logs_observer. destruct (logs s); [| done].
  unfold selection_set. destruct (selection_is (selection s) None); [done |].
  destruct (autorun_selection_frame active (set_selection None s)) as (_ & _ & Hdyn & _).
  exact Hdyn.
Qed.

Lemma logs_push_prefix active log s :
  dynamicColumns s `prefix_of` dynamicColumns (logs_push active log s).
Proof.
  unfold logs_push, logs_intercept_added.
  destruct (augmentLog log (driverlessRules s) (workspaceUri s)) as [log' rules].
  rewrite logs_observer_dynamicColumns. simpl.
  apply (extractDynamicColumns_prefix log' (set_driverlessRules rules s)).
Qed.

Lemma remove_log_dynamicColumns active s uri :
  dynamicColumns (remove_log active s uri) = dynamicColumns s.
Proof.
  unfold remove_log, logs_splice. destruct (findIndex uri (logs s)) as [i |]; [| done].
  destruct (i <? length (logs s))%nat; [| done].
  by rewrite logs_observer_dynamicColumns.
Qed.

Lemma add_logs_prefix active added : ∀ acc,
  dynamicColumns (outcome_state acc)
  `prefix_of` dynamicColumns (outcome_state (foldl (add_log active) acc added)).
Proof.
  induction added as [| a rest IH]; intros acc; simpl; [done |].
  etransitivity; [| apply IH].
  unfold add_log. destruct acc as [s | e s]; [| done].
  destruct (if present (Added.text a) then _ else _) as [log |]; simpl; [| done].
  apply logs_push_prefix.
Qed.

(** X16. The dynamic columns are append-only.  Whatever a ['spliceLogs']
    message removes and adds, and whether its handler returns or throws,
    the dynamic columns before it are a prefix of the dynamic columns after
    it: removing logs removes no dynamic column, and an ingestion only
    appends.  So a dynamic column keeps its place, and every place in the
    list of columns keeps the name of its column. *)
Theorem dynamicColumns_append_only
    (active : bool) (removed : list string) (added : list Added.t) (s : IndexStore.t) :
  let s' := outcome_state (onMessage active (message (Command.spliceLogs removed added)) s) in
  dynamicColumns s `prefix_of` dynamicColumns s'
  ∧ (∀ i key, dynamicColumns s !! i = Some key → dynamicColumns s' !! i = Some key)
  ∧ (∀ i col, columns s !! i = Some col →
       ∃ col', columns s' !! i = Some col' ∧ Column.name col' = Column.name col).
Proof.
  cbn zeta. simpl.
  set (s' := outcome_state (foldl (add_log active) (Returned (foldl (remove_log active) s removed)) added)).
  assert (dynamicColumns s `prefix_of` dynamicColumns s') as Hprefix.
  { subst s'. etransitivity; [| apply add_logs_prefix]. simpl.
    clear. revert s. induction removed as [| uri rest IH]; intros s; simpl; [done |].
    etransitivity; [| apply IH]. by rewrite remove_log_dynamicColumns. }
  split; [done |].
  assert (∀ i key, dynamicColumns s !! i = Some key → dynamicColumns s' !! i = Some key)
    as Hplace.
  { intros i key Hkey. destruct Hprefix as [more ->]. by apply lookup_app_l_Some. }
  split; [done |].
  intros i col. unfold columns, columnsPermanent. rewrite !app_nil_l.
  destruct (decide (i < 7)%nat) as [Hlt | Hge].
  - rewrite !lookup_app_l by (simpl; lia).
    do 7 (destruct i as [| i]; [intros [= <-]; eexists; split; [reflexivity | done] |]).
    lia.
  - rewrite !lookup_app_r by (simpl; lia). simpl length.
    unfold dynamicPropertyColumns. rewrite !list_lookup_imap.
    destruct (dynamicColumns s !! (i - 7)%nat) as [key |] eqn:Hkey; [| done].
    rewrite (Hplace _ _ Hkey). simpl. intros [= <-]. eexists. split; [reflexivity | done].
Qed.

(** X17. What [setState] saves brings back the row filters and every
    column flag of the store, with the default flag for a column that the
    store has no flag for; the key words, the column order, the triage
    statuses, the logs and the dynamic columns are not part of it, and the
    store built from it starts without them.  A dynamic column that was
    visible is visible again as soon as a log that has its property is
    ingested. *)
Theorem saved_state_restores_filters
    (workspaceUri : option string) (s : IndexStore.t) :
  is_Some (filter s) →
  ∃ s',
    new (setState_state s) workspaceUri = Some s'
    ∧ filtersRow s' = filtersRow s
    ∧ (∀ key flag, column_flag s key = Some flag → column_flag s' key = Some flag)
    ∧ (∀ key, column_flag s key = None
              → column_flag s' key = FiltersColumn.Columns shared_filtersColumn !! key)
    ∧ (keywords s' = EmptyString ∧ columnOrder s' = [] ∧ resultStatuses s' = ∅
       ∧ logs s' = [] ∧ dynamicColumns s' = [])
    ∧ (∀ active log key,
         column_flag s key = Some visible →
         key ∈ dynamicColumns (logs_push active log s') →
         key ∈ optionalColumnNames (logs_push active log s')).
Proof.
  intros Hfilter. apply filter_is_Some in Hfilter as ([L HL] & [B HB] & [S HS]).
  assert (setState_state s !! "filtersRow" = Some (filtersRow s)) as Hrows
    by (unfold setState_state; by rewrite lookup_insert_eq).
  assert (setState_state s !! "filtersColumn"
          = Some {[ "Columns" := FiltersColumn.Columns (filtersColumn s) ]}) as Hcols.
  { unfold setState_state. rewrite lookup_insert_ne by done. by rewrite lookup_singleton_eq. }
  unfold new. rewrite Hrows, Hcols, HL, HB, HS. simpl. rewrite lookup_singleton_eq. simpl.
  eexists. split; [reflexivity |]. split; [done |].
  assert (∀ key flag, column_flag s key = Some flag →
            (FiltersColumn.Columns (filtersColumn s)
             ∪ FiltersColumn.Columns shared_filtersColumn) !! key = Some flag) as Hkept.
  { intros key flag Hflag. unfold column_flag in Hflag. rewrite lookup_union, Hflag.
    by destruct (FiltersColumn.Columns shared_filtersColumn !! key). }
  split; [exact Hkept |]. split.
  - intros key Hnone. unfold column_flag in *. simpl. rewrite lookup_union, Hnone.
    by destruct (FiltersColumn.Columns shared_filtersColumn !! key).
  - split; [done |]. intros active log key Hvisible Hdyn.
    apply optionalColumnNames_elem.
    match goal with |- column_flag (logs_push active log ?s0) key = _ =>
      destruct (logs_push_discovered active log s0) as (_ & _ & _ & Hkeep & _) end.
    apply Hkeep. by apply Hkept.
Qed.

End Persistence.

(** ** The key of a result *)

Section Keys_of_results.
Context `{Js.Engine}.
Import IndexStore Notions ResultTableStore.

Lemma unescape_escape_char c rest :
  unescape_head (Js.escape_char c +:+ rest) = Some (c, rest).
Proof. by destruct c as [[] [] [] [] [] [] [] []]. Qed.

Lemma escape_char_head c rest :
  match Js.escape_char c +:+ rest with
  | String a _ => Ascii.eqb a (ascii_of_nat 34) = false
  | EmptyString => False
  end.
Proof. by destruct c as [[] [] [] [] [] [] [] []]. Qed.

Lemma append_cons (x : ascii) (a b : string) : String x a +:+ b = String x (a +:+ b).
Proof. reflexivity. Qed.

Lemma append_one (x : ascii) (b : string) : String x EmptyString +:+ b = String x b.
Proof. reflexivity. Qed.

Lemma append_assoc (a b c : string) : (a +:+ b) +:+ c = a +:+ (b +:+ c).
Proof. induction a as [| x a IH]; [done |]. rewrite !append_cons. by rewrite IH. Qed.

(** A quoted string ends where its closing quote is. *)
Lemma escape_delimited u : ∀ u' r r',
  Js.escape u +:+ Js.dquote +:+ r = Js.escape u' +:+ Js.dquote +:+ r' →
  u = u' ∧ r = r'.
Proof.
  induction u as [| c u IH]; intros u' r r' Heq.
  - destruct u' as [| c' u']; [by injection Heq |].
    exfalso.
    change (Js.escape (String c' u')) with (Js.escape_char c' +:+ Js.escape u') in Heq.
    rewrite append_assoc in Heq.
    pose proof (escape_char_head c' (Js.escape u' +:+ Js.dquote +:+ r')) as Hhead.
    rewrite <- Heq in Hhead. simpl in Hhead. discriminate.
  - change (Js.escape (String c u)) with (Js.escape_char c +:+ Js.escape u) in Heq.
    rewrite append_assoc in Heq.
    destruct u' as [| c' u'].
    + exfalso.
      pose proof (escape_char_head c (Js.escape u +:+ Js.dquote +:+ r)) as Hhead.
      rewrite Heq in Hhead. simpl in Hhead. discriminate.
    + change (Js.escape (String c' u')) with (Js.escape_char c' +:+ Js.escape u') in Heq.
      rewrite append_assoc in Heq.
      pose proof (unescape_escape_char c (Js.escape u +:+ Js.dquote +:+ r)) as Hl.
      rewrite Heq, unescape_escape_char in Hl. injection Hl as -> Hrest.
      symmetry in Hrest. destruct (IH _ _ _ Hrest) as [-> ->]. done.
Qed.

Lemma delimited (d : ascii) (x : string) : ∀ x' r r',
  has_char d x = false → has_char d x' = false →
  x +:+ String d r = x' +:+ String d r' → x = x' ∧ r = r'.
Proof.
  induction x as [| c x IH]; intros x' r r' Hx Hx' Heq.
  - destruct x' as [| c' x']; [by injection Heq |].
    rewrite append_cons in Heq. injection Heq as <- _.
    simpl in Hx'. by rewrite Ascii.eqb_refl in Hx'.
  - rewrite append_cons in Heq. destruct x' as [| c' x'].
    + injection Heq as -> _. simpl in Hx. by rewrite Ascii.eqb_refl in Hx.
    + rewrite append_cons in Heq. injection Heq as -> Heq.
      simpl in Hx, Hx'.
      apply orb_false_iff in Hx as [_ Hx]. apply orb_false_iff in Hx' as [_ Hx'].
      destruct (IH _ _ _ Hx Hx' Heq) as [-> ->]. done.
Qed.

Lemma digits_no_char (d : ascii) (u : Decimal.uint) :
  (nat_of_ascii d < 48 ∨ 57 < nat_of_ascii d)%nat →
  has_char d (NilEmpty.string_of_uint u) = false.
Proof.
  intros Hd. induction u; [done | ..];
    (cbn [NilEmpty.string_of_uint has_char]; rewrite IHu, orb_false_r;
     apply Ascii.eqb_neq; intros <-; vm_compute in Hd; lia).
Qed.

Lemma number_no_char (d : ascii) (n : Z) :
  (nat_of_ascii d < 45 ∨ 57 < nat_of_ascii d)%nat →
  has_char d (Js.number_toString n) = false.
Proof.
  intros Hd. unfold Js.number_toString, NilZero.string_of_int, NilZero.string_of_uint.
  assert (∀ u, has_char d match u with
                          | Decimal.Nil => "0"
                          | _ => NilEmpty.string_of_uint u
                          end = false) as Huint.
  { intros u. destruct u; try (apply digits_no_char; lia).
    cbn [has_char]. rewrite orb_false_r. apply Ascii.eqb_neq. intros <-. vm_compute in Hd. lia. }
  destruct (Z.to_int n) as [u | u]; [apply Huint |].
  cbn [has_char]. rewrite Huint, orb_false_r. apply Ascii.eqb_neq. intros <-.
  vm_compute in Hd. lia.
Qed.

Lemma to_int_nonnil n :
  Z.to_int n ≠ Decimal.Pos Decimal.Nil ∧ Z.to_int n ≠ Decimal.Neg Decimal.Nil.
Proof.
  split; intros E; pose proof E as E'; apply (f_equal Z.of_int) in E';
    rewrite DecimalZ.of_to in E'; subst n; discriminate E.
Qed.

Lemma number_toString_inj n n' :
  Js.number_toString n = Js.number_toString n' → n = n'.
Proof.
  unfold Js.number_toString. intros Heq.
  apply (f_equal NilZero.int_of_string) in Heq.
  destruct (to_int_nonnil n), (to_int_nonnil n').
  rewrite !NilZero.isi in Heq by done.
  injection Heq as Heq. by apply DecimalZ.to_int_inj.
Qed.

Lemma finite_of_Z n : Js.finite (Js.of_Z n) = true.
Proof.
  unfold Js.finite, Js.of_Z. cbn [Js.text].
  apply negb_true_iff. rewrite !orb_false_iff.
  pose proof (number_no_char (ascii_of_nat 73) n) as HI.
  pose proof (number_no_char (ascii_of_nat 78) n) as HN.
  repeat split; apply String.eqb_neq; intros E; rewrite E in HI, HN.
  - discriminate HI. vm_compute. lia.
  - discriminate HI. vm_compute. lia.
  - discriminate HN. vm_compute. lia.
Qed.

(** X18. The key of a result, the JSON text of its identity, tells the
    identity: two results have the same key only if they have the same
    identity.  So a status set, or a fix recorded, under the key of one
    result never shows on a result of another identity. *)
Theorem id_key_tells_the_identity (r1 r2 : Result.t) :
  (id_key r1 = id_key r2 → Result._id r1 = Result._id r2)
  ∧ (Result._id r1 ≠ Result._id r2 →
     ∀ src status,
       ResultTableStore.getResultStatus
         (IndexStore.setResultStatus (id_key r1) status src) r2
       = ResultTableStore.getResultStatus src r2).
Proof.
  assert (id_key r1 = id_key r2 → Result._id r1 = Result._id r2) as Hinj; [| split; [done |]].
  2: { intros Hne src status. unfold ResultTableStore.getResultStatus, IndexStore.setResultStatus.
       simpl. rewrite lookup_insert_ne; [done |]. intros Hkey. by apply Hne, Hinj. }
  unfold id_key, ResultId_value.
  destruct (Result._id r1) as [[u a] b], (Result._id r2) as [[u' a'] b'].
  cbn [Js.JSON_stringify List.map String.concat]. rewrite !finite_of_Z.
  cbn [Js.text Js.of_Z]. unfold Js.quote.
  intros Heq. rewrite !append_assoc in Heq. unfold Js.dquote in Heq.
  rewrite !append_one in Heq. injection Heq as Heq.
  change (String (ascii_of_nat 34) ?x) with (Js.dquote +:+ x) in Heq.
  apply escape_delimited in Heq as [-> Heq].
  injection Heq as Heq.
  apply (delimited (ascii_of_nat 44)) in Heq as [Ha Heq];
    [| apply number_no_char; vm_compute; lia | apply number_no_char; vm_compute; lia].
  apply (delimited (ascii_of_nat 93)) in Heq as [Hb _];
    [| apply number_no_char; vm_compute; lia | apply number_no_char; vm_compute; lia].
  by rewrite (number_toString_inj _ _ Ha), (number_toString_inj _ _ Hb).
Qed.

(** X19. A key word that occurs in a string property of a result is
    found by the filter as soon as the key of that property is a dynamic
    column, whether that column is shown or not: a result that the row
    filters let through is then accepted. *)
Theorem keyword_in_a_property_is_found
    (src : IndexStore.t) (accepts : Result.t → bool) (result : Result.t)
    (fields : list (string * Js.Value)) (key value keyword : string) :
  filter src = Some accepts →
  passes_row_filters src result →
  key ∈ dynamicColumns src →
  Result.properties result = Some fields →
  Js.get fields key = Some (Js.Str value) →
  keyword ∈ filterKeywords src →
  substring keyword (Js.toLowerCase value) →
  accepts result = true.
Proof.
  intros Hfilter Hrows Hkey Hfields Hvalue Hkeyword Hsub.
  apply (filter_Some_spec _ _ Hfilter). split; [done |]. right.
  apply list_elem_of_lookup in Hkey as [i Hi].
  exists {| Column.oid := 7 + i; Column.name := key; Column.width := 150;
            Column.toString := property_text key; Column.toNumber := None |}, keyword.
  split; [| split; [done |]].
  - apply columns_elem. right. unfold dynamicPropertyColumns.
    apply elem_of_lookup_imap. by exists i, key.
  - simpl. unfold property_text. by rewrite Hfields, Hvalue.
Qed.

End Keys_of_results.

(** ** The properties on the sample panel *)

(** One log ingested into the new store: of its properties,
    [security-severity] gets a new flag. *)
Lemma results_after_push_witness :
  IndexStore.results (IndexStore.logs_push true Sample.log_props Sample.store0)
  = Some (Notions.log_results Sample.log_props)
  ∧ ∃ more,
      IndexStore.posted (IndexStore.logs_push true Sample.log_props Sample.store0) = more
      ∧ List.filter Notions.is_setState more = [Post.setState].
Proof.
  destruct (results_after_push true Sample.log_props Sample.store0)
    as (_ & _ & (more & Hposted & Hstate) & Hresults & _).
  split.
  - apply (Hresults [] [ {| Run.results := Some [Sample.result_props] |} ]); reflexivity.
  - exists more. split; [exact Hposted |].
    transitivity (List.map (fun _ : string => Post.setState)
                    (Notions.seeded Sample.store0 Sample.log_props));
      [exact Hstate | vm_compute; reflexivity].
Defined.

(** The only log is removed; a uri that no log has. *)
Lemma remove_log_first_match_witness :
  IndexStore.logs
    (IndexStore.remove_log true (Sample.store_selected Sample.row1) "file:///log.sarif") = []
  ∧ IndexStore.remove_log true (Sample.store_selected Sample.row1) "file:///other.sarif"
    = Sample.store_selected Sample.row1.
Proof.
  split.
  - destruct (remove_log_first_match true "file:///log.sarif"
                (Sample.store_selected Sample.row1)) as [_ Hfound].
    destruct (Hfound [] (Sample.log_of [Sample.result1]) []) as (Hlogs & _).
    + reflexivity.
    + intros l Hl. by apply elem_of_nil in Hl.
    + reflexivity.
    + exact Hlogs.
  - destruct (remove_log_first_match true "file:///other.sarif"
                (Sample.store_selected Sample.row1)) as [Habsent _].
    apply Habsent.
    intros log [-> | Hlog]%elem_of_cons; [discriminate | by apply elem_of_nil in Hlog].
Defined.

(** A log is removed, a log is fetched from the web view, and the text of
    a third one does not parse. *)
Lemma spliceLogs_adds_in_order_until_parse_error_witness :
  ∃ error s',
    IndexStore.onMessage true
      (Notions.message
         (Command.spliceLogs ["file:///log.sarif"] [Sample.added_fetched; Sample.added_bad]))
      (Sample.store_selected Sample.row1) = Threw error s'
    ∧ List.map Log._uri (IndexStore.logs s') = ["file:///fetched.sarif"].
Proof.
  destruct (spliceLogs_adds_in_order_until_parse_error true ["file:///log.sarif"]
              (Sample.store_selected Sample.row1)) as [_ Hbad].
  destruct (Hbad [Sample.added_fetched] Sample.added_bad [])
    as (error & s' & Hthrew & _ & Hlogs).
  - apply Forall_singleton. apply (bool_decide_unpack _). vm_compute. exact I.
  - reflexivity.
  - exists error, s'. split; [exact Hthrew |].
    rewrite Hlogs. vm_compute. reflexivity.
Defined.

(** The banner of the new store comes back after the notice. *)
Lemma basePathSet_restores_the_banner_it_found_witness :
  IndexStore.banner
    (IndexStore.timeout_fires
       (outcome_state
          (IndexStore.onMessage true (Notions.message Command.basePathSet) Sample.store0)))
  = IndexStore.banner Sample.store0.
Proof.
  apply (basePathSet_restores_the_banner_it_found true Sample.store0). reflexivity.
Defined.

(** The result marked as a true positive shows [TP]. *)
Lemma Status_column_shows_getResultStatus_witness :
  Column.toString (Sample.column_Status Sample.store_triaged) Sample.result1 = "TP".
Proof.
  destruct (Status_column_shows_getResultStatus Sample.store_triaged Sample.result1
              (Sample.column_Status Sample.store_triaged)) as (Htext & _).
  - unfold Sample.column_Status, ResultTableStore.columnsOptional. simpl.
    do 2 apply list_elem_of_further. apply list_elem_of_here.
  - reflexivity.
  - rewrite Htext. vm_compute. reflexivity.
Defined.

(** The errors are hidden, or shown, in the new store. *)
Lemma row_flag_filter_monotone_witness :
  ∃ accepts accepts_off accepts_on,
    ResultTableStore.filter Sample.store0 = Some accepts
    ∧ ResultTableStore.filter (Notions.with_row_flag "Level" "Error" hidden Sample.store0)
      = Some accepts_off
    ∧ ResultTableStore.filter (Notions.with_row_flag "Level" "Error" visible Sample.store0)
      = Some accepts_on
    ∧ (length (List.filter accepts_off [Sample.result1; Sample.result_nowhere])
       ≤ length (List.filter accepts [Sample.result1; Sample.result_nowhere]))%nat.
Proof.
  assert (is_Some (ResultTableStore.filter Sample.store0)) as [accepts Hfilter].
  { apply filter_is_Some. repeat split; apply (bool_decide_unpack _); vm_compute; exact I. }
  destruct (row_flag_filter_monotone "Level" "Error" Sample.store0 accepts Hfilter)
    as (off & on & Hoff & Hon & _ & _ & Hcount).
  exists accepts, off, on. split; [exact Hfilter |]. split; [exact Hoff |].
  split; [exact Hon |]. apply Hcount.
Defined.

(** A no-break space, a space and a line separator as key words. *)
Lemma blank_keywords_filter_nothing_witness :
  ResultTableStore.filterKeywords
    (IndexStore.set_keywords (Js.bytes [194; 160; 32; 226; 128; 168]) Sample.store0) = [].
Proof.
  apply (blank_keywords_filter_nothing
           (IndexStore.set_keywords (Js.bytes [194; 160; 32; 226; 128; 168]) Sample.store0)).
  reflexivity.
Defined.

(** The column order names [Rule], the hidden [Baseline], and [Line]. *)
Lemma visibleColumns_follow_columnOrder_witness :
  List.map Column.name
    (ResultTableStore.visibleColumns ResultTableStore.byLocation Sample.store_order)
  = List.filter
      (fun n => bool_decide
                  (n ∈ List.map Column.name
                         (ResultTableStore.unorderedColumns ResultTableStore.byLocation
                            Sample.store_order)))
      ["Rule"; "Baseline"; "Line"]
    ++ List.filter (fun n => negb (bool_decide (n ∈ ["Rule"; "Baseline"; "Line"])))
         (List.map Column.name
            (ResultTableStore.unorderedColumns ResultTableStore.byLocation
               Sample.store_order)).
Proof.
  apply (visibleColumns_follow_columnOrder ResultTableStore.byLocation Sample.store_order).
  apply (bool_decide_unpack _). vm_compute. exact I.
Defined.

(** The first visible column is dragged to the third place. *)
Lemma moveColumn_reorders_the_visible_columns_witness :
  ∃ s', ResultTableStore.moveColumn ResultTableStore.byLocation 0 2 Sample.store0 = Some s'
        ∧ List.map Column.name
            (ResultTableStore.visibleColumns ResultTableStore.byLocation s')
          = IndexStore.columnOrder s'.
Proof.
  destruct (ResultTableStore.moveColumn ResultTableStore.byLocation 0 2 Sample.store0)
    as [s' |] eqn:Hmove; [| vm_compute in Hmove; discriminate].
  exists s'. split; [reflexivity |].
  destruct (moveColumn_reorders_the_visible_columns ResultTableStore.byLocation 0 2
              Sample.store0) as [_ Hmoved].
  destruct (Hmoved s' Hmove) as (_ & _ & _ & Hvisible).
  apply Hvisible. apply (bool_decide_unpack _). vm_compute. exact I.
Defined.

(** The item between a group and another item is selected. *)
Lemma arrows_move_to_the_neighbour_row_witness :
  Table.onKeyDown true "ArrowDown" [Sample.group1; Sample.row1; Sample.row2]
    (Sample.store_selected Sample.row1)
  = (true, IndexStore.selection_set true (Some Sample.row2) (Sample.store_selected Sample.row1))
  ∧ Table.onKeyDown true "ArrowUp" [Sample.group1; Sample.row1; Sample.row2]
      (Sample.store_selected Sample.row1)
    = (true, IndexStore.selection_set true (Some Sample.group1)
               (Sample.store_selected Sample.row1)).
Proof.
  destruct (arrows_move_to_the_neighbour_row true [Sample.group1] Sample.row1 [Sample.row2]
              (Sample.store_selected Sample.row1)) as (Hdown & _ & Hup & _).
  - reflexivity.
  - intros b [-> | Hb]%elem_of_cons; [reflexivity | by apply elem_of_nil in Hb].
  - split.
    + by apply (Hdown Sample.row2 []).
    + by apply (Hup [] Sample.group1).
Defined.

(** The filters of the new store saved and restored. *)
Lemma saved_state_restores_filters_witness :
  ∃ s', IndexStore.new (IndexStore.setState_state Sample.store_order) None = Some s'
        ∧ IndexStore.filtersRow s' = IndexStore.filtersRow Sample.store_order
        ∧ IndexStore.columnOrder s' = [].
Proof.
  destruct (saved_state_restores_filters None Sample.store_order)
    as (s' & Hnew & Hrows & _ & _ & (_ & Horder & _) & _).
  - apply filter_is_Some. repeat split; apply (bool_decide_unpack _); vm_compute; exact I.
  - exists s'. split; [exact Hnew |]. split; [exact Hrows | exact Horder].
Defined.

Lemma store_search_rows :
  Notions.passes_row_filters Sample.store_search Sample.result_props.
Proof.
  exists {[ "Error" := visible; "Warning" := visible; "Note" := visible; "None" := visible ]},
         {[ "New" := visible; "Unchanged" := visible; "Updated" := visible;
            "Absent" := hidden ]},
         {[ "Not Suppressed" := visible; "Suppressed" := hidden ]}.
  split; [vm_compute; reflexivity |]. split; [vm_compute; reflexivity |].
  split; [vm_compute; reflexivity |]. split; [| split].
  - exists "Error". split; vm_compute; reflexivity.
  - exists "New". split; vm_compute; reflexivity.
  - exists "Not Suppressed". split; vm_compute; reflexivity.
Qed.

(** The key word [GENERATED] and the property [File] of the result. *)
Lemma keyword_in_a_property_is_found_witness :
  ∃ accepts, ResultTableStore.filter Sample.store_search = Some accepts
             ∧ accepts Sample.result_props = true.
Proof.
  assert (is_Some (ResultTableStore.filter Sample.store_search)) as [accepts Hfilter].
  { apply filter_is_Some. repeat split; apply (bool_decide_unpack _); vm_compute; exact I. }
  exists accepts. split; [exact Hfilter |].
  apply (keyword_in_a_property_is_found Sample.store_search accepts Sample.result_props
           [ ("security-severity", Js.Str "8.1"); ("tags", Js.Array [Js.Str "security"]);
             ("File", Js.Str "generated.c") ]
           "File" "generated.c" "generated" Hfilter).
  - exact store_search_rows.
  - vm_compute. apply list_elem_of_further, list_elem_of_here.
  - reflexivity.
  - reflexivity.
  - vm_compute. apply list_elem_of_here.
  - exists EmptyString, ".c". reflexivity.
Defined.
